(** * Hotel record resolution and update pipeline

    A shallow embedding of the request handlers of
    [src/routes/my-hotels.ts] (create, read by identifier, the two update
    routes) and of the price route ([POST /changePrice]), over an explicit
    document collection.

    The handlers are [async] functions that read and write one Mongoose
    collection and may throw at every [await]; they are embedded in a small
    state-and-exception monad over the collection.  What lives outside the
    repository's source (the ObjectId cast of the driver, the schema
    validation of the model, the media host) is a field of [Services]. *)

From Stdlib Require Import ZArith String Ascii.
From stdpp Require Import base option list strings.

Local Open Scope Z_scope.
Local Open Scope string_scope.
Local Open Scope list_scope.

(** ** Data model *)

(** [Express.Multer.File]: the two members [uploadImages] reads, and the
    byte content that multer measures against [limits.fileSize]. *)
Record File := {
  mimetype : string;
  buffer : string
}.

(** [BookingType] of [shared/types]. *)
Record Booking := {
  booking_id : string;
  booking_userId : string;
  firstName : string;
  lastName : string;
  email : string;
  checkIn : Z;
  checkOut : Z;
  totalCost : Z
}.

(** Modelled from the spec: the Hotel schema ([models/hotel]) is not among
    the sources.  A stored hotel document has the paths of [HotelType]
    ([shared/types]) and the [userId] that the queries of the handlers name
    (the spec's [ownerId]).  [_id] is always present, and is held in the
    string form of the ObjectId ([_id.toString()]); array paths are always
    present on a hydrated Mongoose document (they default to the empty
    array); every other path may be absent.  Dates are milliseconds since
    the epoch. *)
Record Hotel := {
  _id : string;
  userId : option string;
  hotelId : option string;
  name : option string;
  city : option string;
  country : option string;
  description : option string;
  type : option string;
  facilities : list string;
  pricePerNight : option Z;
  imageUrls : list string;
  lastUpdated : option Z;
  bookings : list Booking
}.

(** The value of an [_id] path as a handler holds it: a string of the
    request, or the ObjectId of a stored document (in its string form). *)
Inductive IdValue :=
  | Raw (s : string)
  | Oid (hex : string).

(** [req.body], and more generally a Mongoose update document: any subset
    of the paths. *)
Record Patch := {
  p_id : option IdValue;
  p_userId : option string;
  p_hotelId : option string;
  p_name : option string;
  p_city : option string;
  p_country : option string;
  p_description : option string;
  p_type : option string;
  p_facilities : option (list string);
  p_pricePerNight : option Z;
  p_imageUrls : option (list string);
  p_lastUpdated : option Z;
  p_bookings : option (list Booking)
}.

(** A Mongoose query filter, as the handlers build them: a conjunction of
    equalities on [_id], [hotelId] and [userId]. *)
Record Filter := {
  f_id : option string;
  f_hotelId : option string;
  f_userId : option string
}.

(** What a handler throws or hands to [next]. *)
Inductive Error :=
  | CastError
  | ValidationError
  | DuplicateKey
  | ImmutableField
  | DocumentNotFound
  | UploadError
  | MulterFileSize
  | MulterUnexpectedFile.

(** What a handler sends. *)
Inductive Response :=
  | SendHotel (status : nat) (hotel : Hotel)
  | SendMessage (status : nat) (message : string)
  | SendEmpty (status : nat).

(** The collection, in natural (insertion) order. *)
Abbreviation Store := (list Hotel).

(** The collaborators that are not in the repository's source. *)
Record Services := {
  (** the ObjectId the driver makes of a string, in its string form, when
      it can make one *)
  castObjectId : string → option string;
  (** does the document pass the validation of the Hotel schema *)
  schemaOk : Hotel → bool;
  (** [cloudinary.v2.uploader.upload]: the URL, or a rejection *)
  cloudinaryUpload : string → option string
}.

Global Instance Booking_eq_dec : EqDecision Booking.
Proof. solve_decision. Defined.
Global Instance Error_eq_dec : EqDecision Error.
Proof. solve_decision. Defined.
Global Instance Hotel_eq_dec : EqDecision Hotel.
Proof. solve_decision. Defined.
Global Instance Response_eq_dec : EqDecision Response.
Proof. solve_decision. Defined.

(** ** The handler monad: collection state and exceptions *)

Definition M (A : Type) : Type := Store → (Error + A) * Store.

Definition ret {A} (a : A) : M A := λ st, (inr a, st).

Definition throw {A} (e : Error) : M A := λ st, (inl e, st).

Definition bind {A B} (m : M A) (k : A → M B) : M B := λ st,
  match m st with
  | (inl e, st') => (inl e, st')
  | (inr a, st') => k a st'
  end.

(** [try { m } catch (error) { h error }]: writes made before the throw
    stay in the collection. *)
Definition tryCatch {A} (m : M A) (h : Error → M A) : M A := λ st,
  match m st with
  | (inl e, st') => h e st'
  | (inr a, st') => (inr a, st')
  end.

(** [x ← m; k] is [const x = await m; k]. *)
Global Instance M_ret : MRet M := @ret.
Global Instance M_bind : MBind M := λ A B k m, bind m k.

(** ** [Buffer.toString("base64")] *)

Definition b64alphabet : string :=
  "ABCDEFGHIJKLMNOPQRSTUVWXYZabcdefghijklmnopqrstuvwxyz0123456789+/".

Definition b64char (n : N) : ascii :=
  default "="%char (String.get (N.to_nat n) b64alphabet).

Fixpoint base64 (s : string) : string :=
  match s with
  | EmptyString => EmptyString
  | String a EmptyString =>
      let x := N_of_ascii a in
      String (b64char (N.shiftr x 2))
        (String (b64char (N.shiftl (N.land x 3) 4)) "==")
  | String a (String b EmptyString) =>
      let x := N_of_ascii a in
      let y := N_of_ascii b in
      String (b64char (N.shiftr x 2))
        (String (b64char (N.lor (N.shiftl (N.land x 3) 4) (N.shiftr y 4)))
           (String (b64char (N.shiftl (N.land y 15) 2)) "="))
  | String a (String b (String c rest)) =>
      let x := N_of_ascii a in
      let y := N_of_ascii b in
      let z := N_of_ascii c in
      String (b64char (N.shiftr x 2))
        (String (b64char (N.lor (N.shiftl (N.land x 3) 4) (N.shiftr y 4)))
           (String (b64char (N.lor (N.shiftl (N.land y 15) 2) (N.shiftr z 6)))
              (String (b64char (N.land z 63)) (base64 rest))))
  end.

(** ** multer *)

(** [limits.fileSize]: 5MB. *)
Definition fileSize : N := 5 * 1024 * 1024.

(** [upload.array("imageFiles", maxCount)]: multer takes the files in the
    order of the request, [seen] of them so far.  A file beyond [maxCount]
    is refused when it starts ([LIMIT_UNEXPECTED_FILE]), a file whose content
    reaches [limits.fileSize] when that byte arrives ([LIMIT_FILE_SIZE]); the
    first refusal ends the request.  Without [maxCount] any number of files
    is accepted. *)
Fixpoint uploadArrayFrom (maxCount : option nat) (seen : nat)
    (files : list File) : option Error :=
  match files with
  | [] => None
  | f :: rest =>
      if match maxCount with
         | Some n => bool_decide (n ≤ seen)%nat
         | None => false
         end
      then Some MulterUnexpectedFile
      else if bool_decide (fileSize ≤ N.of_nat (String.length (buffer f)))%N
      then Some MulterFileSize
      else uploadArrayFrom maxCount (S seen) rest
  end.

(** The files reach the handler, as they came, when none was refused. *)
Definition uploadArray (maxCount : option nat) (files : list File)
    : Error + list File :=
  match uploadArrayFrom maxCount 0 files with
  | Some e => inl e
  | None => inr files
  end.

(** ** The collection: Mongoose queries over the store *)

Definition emptyPatch : Patch :=
  {| p_id := None; p_userId := None; p_hotelId := None; p_name := None;
     p_city := None; p_country := None; p_description := None;
     p_type := None; p_facilities := None; p_pricePerNight := None;
     p_imageUrls := None; p_lastUpdated := None;
     p_bookings := None |}.

(** A path of the update document wins over the stored one. *)
Definition pick {A} (new old : option A) : option A :=
  match new with
  | Some _ => new
  | None => old
  end.

(** [{ ...a, ...b }] *)
Definition spread (a b : Patch) : Patch :=
  {| p_id := pick (p_id b) (p_id a);
     p_userId := pick (p_userId b) (p_userId a);
     p_hotelId := pick (p_hotelId b) (p_hotelId a);
     p_name := pick (p_name b) (p_name a);
     p_city := pick (p_city b) (p_city a);
     p_country := pick (p_country b) (p_country a);
     p_description := pick (p_description b) (p_description a);
     p_type := pick (p_type b) (p_type a);
     p_facilities := pick (p_facilities b) (p_facilities a);
     p_pricePerNight := pick (p_pricePerNight b) (p_pricePerNight a);
     p_imageUrls := pick (p_imageUrls b) (p_imageUrls a);
     p_lastUpdated := pick (p_lastUpdated b) (p_lastUpdated a);
     p_bookings := pick (p_bookings b) (p_bookings a) |}.

(** [doc.toObject()] *)
Definition toObject (h : Hotel) : Patch :=
  {| p_id := Some (Oid (_id h));
     p_userId := userId h;
     p_hotelId := hotelId h;
     p_name := name h;
     p_city := city h;
     p_country := country h;
     p_description := description h;
     p_type := type h;
     p_facilities := Some (facilities h);
     p_pricePerNight := pricePerNight h;
     p_imageUrls := Some (imageUrls h);
     p_lastUpdated := lastUpdated h;
     p_bookings := Some (bookings h) |}.

(** The stored document after [$set] of every path of the update. *)
Definition merge (h : Hotel) (u : Patch) : Hotel :=
  {| _id := _id h;
     userId := pick (p_userId u) (userId h);
     hotelId := pick (p_hotelId u) (hotelId h);
     name := pick (p_name u) (name h);
     city := pick (p_city u) (city h);
     country := pick (p_country u) (country h);
     description := pick (p_description u) (description h);
     type := pick (p_type u) (type h);
     facilities := default (facilities h) (p_facilities u);
     pricePerNight := pick (p_pricePerNight u) (pricePerNight h);
     imageUrls := default (imageUrls h) (p_imageUrls u);
     lastUpdated := pick (p_lastUpdated u) (lastUpdated h);
     bookings := default (bookings h) (p_bookings u) |}.

(** [_id] is immutable: an update whose [_id] (once cast, [uid]) is not the
    one of the record is refused by the store. *)
Definition applyUpdate (h : Hotel) (uid : option string) (u : Patch)
    : option Hotel :=
  match uid with
  | Some y => if bool_decide (y = _id h) then Some (merge h u) else None
  | None => Some (merge h u)
  end.

(** The document [new Hotel(obj)] makes: its [_id] is the one of [obj]
    (once cast, [uid]) or a fresh one supplied by the driver. *)
Definition construct (freshId : string) (uid : option string) (obj : Patch)
    : Hotel :=
  {| _id := default freshId uid;
     userId := p_userId obj;
     hotelId := p_hotelId obj;
     name := p_name obj;
     city := p_city obj;
     country := p_country obj;
     description := p_description obj;
     type := p_type obj;
     facilities := default [] (p_facilities obj);
     pricePerNight := p_pricePerNight obj;
     imageUrls := default [] (p_imageUrls obj);
     lastUpdated := p_lastUpdated obj;
     bookings := default [] (p_bookings obj) |}.

Definition set_imageUrls (urls : list string) (h : Hotel) : Hotel :=
  {| _id := _id h; userId := userId h; hotelId := hotelId h; name := name h;
     city := city h; country := country h; description := description h;
     type := type h; facilities := facilities h;
     pricePerNight := pricePerNight h; imageUrls := urls;
     lastUpdated := lastUpdated h; bookings := bookings h |}.

Definition fieldIs (want have : option string) : bool :=
  match want with
  | Some x => bool_decide (have = Some x)
  | None => true
  end.

Definition matches (q : Filter) (h : Hotel) : bool :=
  fieldIs (f_id q) (Some (_id h))
  && fieldIs (f_hotelId q) (hotelId h)
  && fieldIs (f_userId q) (userId h).

Inductive QueryField := Q_id | Q_hotelId.

(** [{ [queryField]: value }] *)
Definition byField (queryField : QueryField) (value : string) : Filter :=
  match queryField with
  | Q_id => {| f_id := Some value; f_hotelId := None; f_userId := None |}
  | Q_hotelId => {| f_id := None; f_hotelId := Some value; f_userId := None |}
  end.

(** [{ _id: id, userId }] and [{ hotelId: id, userId }]: the two lookups
    scoped to an owner. *)
Definition primaryFilter (id userIdReq : string) : Filter :=
  {| f_id := Some id; f_hotelId := None; f_userId := Some userIdReq |}.

Definition businessFilter (id userIdReq : string) : Filter :=
  {| f_id := None; f_hotelId := Some id; f_userId := Some userIdReq |}.

(** [{ userId: value }] *)
Definition ownerFilter (value : string) : Filter :=
  {| f_id := None; f_hotelId := None; f_userId := Some value |}.

(** The image references of [st] that satisfy [P] are still on the same
    records in [st']. *)
Definition keepsImageUrls (P : string → Prop) (st st' : Store) : Prop :=
  ∀ i h x, st !! i = Some h → x ∈ imageUrls h → P x →
    ∃ h', st' !! i = Some h' ∧ x ∈ imageUrls h'.

(** [obj.imageUrls = imageUrls] and [obj.lastUpdated = now] *)
Definition set_p_imageUrls (imageUrls : list string) (obj : Patch) : Patch :=
  spread obj
    {| p_id := None; p_userId := None; p_hotelId := None; p_name := None;
       p_city := None; p_country := None; p_description := None;
       p_type := None; p_facilities := None; p_pricePerNight := None;
       p_imageUrls := Some imageUrls; p_lastUpdated := None;
       p_bookings := None |}.

Definition set_p_lastUpdated (now : Z) (obj : Patch) : Patch :=
  spread obj
    {| p_id := None; p_userId := None; p_hotelId := None; p_name := None;
       p_city := None; p_country := None; p_description := None;
       p_type := None; p_facilities := None; p_pricePerNight := None;
       p_imageUrls := None; p_lastUpdated := Some now;
       p_bookings := None |}.

(** [{ pricePerNight: newPrice }] *)
Definition pricePatch (newPrice : option Z) : Patch :=
  {| p_id := None; p_userId := None; p_hotelId := None; p_name := None;
     p_city := None; p_country := None; p_description := None;
     p_type := None; p_facilities := None; p_pricePerNight := newPrice;
     p_imageUrls := None; p_lastUpdated := None;
     p_bookings := None |}.

(** The object [POST /add-hotel] hands to [new Hotel]: the body with
    [imageUrls] and [lastUpdated] overwritten ([newHotel.hotelId =
    req.body.hotelId] assigns the body's own value back). *)
Definition newHotel (body : Patch) (imageUrls : list string) (now : Z)
    : Patch :=
  set_p_lastUpdated now (set_p_imageUrls imageUrls body).

(** The update object of [PUT /update-hotel/:hotelId]:
    [{ ...existingHotel.toObject(), ...updatedFields, imageUrls, lastUpdated }] *)
Definition updatedHotel (existingHotel : Hotel) (updatedFields : Patch)
    (updatedImageUrls : list string) (now : Z) : Patch :=
  set_p_lastUpdated now
    (set_p_imageUrls updatedImageUrls
       (spread (toObject existingHotel) updatedFields)).

Definition queryField (existingHotel : Hotel) (hotelIdParam : string)
    : QueryField :=
  if bool_decide (_id existingHotel = hotelIdParam) then Q_id else Q_hotelId.

(** ** The handlers

    [verifyToken] ([middleware/auth], not among the sources) answers 401 or
    sets [req.userId]; a handler behind it takes that identifier as
    [userIdReq].  The express-validator chains installed on
    [POST /add-hotel] and [PUT /update-hotel/:hotelId] record their findings
    on the request, and no handler reads them ([validationResult] is never
    called in [my-hotels.ts]): they reject nothing and have no counterpart
    here.  [new Date()] is the argument [now], and the ObjectId that the
    driver generates for a new document is the argument [freshId]. *)

Section Handlers.
Context (sv : Services).

(** Mongoose casts the [_id] of a filter and of an update to an ObjectId
    before the query is sent; [None] when it cannot. *)
Definition castFilter (q : Filter) : option Filter :=
  match f_id q with
  | Some s =>
      hex ← castObjectId sv s;
      Some {| f_id := Some hex; f_hotelId := f_hotelId q;
              f_userId := f_userId q |}
  | None => Some q
  end.

Definition castUpdateId (u : Patch) : option (option string) :=
  match p_id u with
  | Some (Raw s) => hex ← castObjectId sv s; Some (Some hex)
  | Some (Oid hex) => Some (Some hex)
  | None => Some None
  end.

(** [Hotel.findOne(q)]: the first match in natural order. *)
Definition findOne (q : Filter) : M (option Hotel) := λ st,
  match castFilter q with
  | None => (inl CastError, st)
  | Some q => (inr (snd <$> list_find (λ h, matches q h) st), st)
  end.

(** [Hotel.findOneAndUpdate(q, u, { new })]: the first match is updated in
    place; the document after the update is returned with [new: true],
    the one before it otherwise. *)
Definition findOneAndUpdate (q : Filter) (u : Patch) (new : bool)
    : M (option Hotel) := λ st,
  match castFilter q, castUpdateId u with
  | Some q, Some uid =>
      match list_find (λ h, matches q h) st with
      | None => (inr None, st)
      | Some (i, h) =>
          match applyUpdate h uid u with
          | None => (inl ImmutableField, st)
          | Some h' => (inr (Some (if new then h' else h)), <[i:=h']> st)
          end
      end
  | _, _ => (inl CastError, st)
  end.

(** [new Hotel(obj)]: [None] stands for a document that carries the cast
    error of its [_id]. *)
Definition new_Hotel (freshId : string) (obj : Patch) : option Hotel :=
  uid ← castUpdateId obj; Some (construct freshId uid obj).

(** [doc.save()] of a document made by [new Hotel(obj)]: validation, then
    the insert, which the unique index on [_id] can refuse; it resolves
    with the document. *)
Definition saveNew (doc : option Hotel) : M Hotel := λ st,
  match doc with
  | None => (inl ValidationError, st)
  | Some doc =>
      if negb (schemaOk sv doc) then (inl ValidationError, st)
      else if bool_decide (_id doc ∈ (_id <$> st))
           then (inl DuplicateKey, st)
           else (inr doc, st ++ [doc])
  end.

(** [doc.save()] of a stored document whose only modified path is
    [imageUrls]. *)
Definition saveImageUrls (doc : Hotel) : M unit := λ st,
  if negb (schemaOk sv doc) then (inl ValidationError, st)
  else match list_find (λ h, _id h = _id doc) st with
       | None => (inl DocumentNotFound, st)
       | Some (i, h) => (inr (), <[i:=set_imageUrls (imageUrls doc) h]> st)
       end.

(** [doc.save()] of a stored document with no modified path: it is
    validated and nothing is written. *)
Definition saveUnmodified (doc : Hotel) : M unit := λ st,
  if negb (schemaOk sv doc) then (inl ValidationError, st)
  else (inr (), st).

(** ** [uploadImages] *)

Definition uploadImage (image : File) : option string :=
  let b64 := base64 (buffer image) in
  let dataURI := "data:" +:+ mimetype image +:+ ";base64," +:+ b64 in
  cloudinaryUpload sv dataURI.

(** [Promise.all] of the uploads: the URLs in the order of the files, or a
    rejection when one upload rejects. *)
Definition uploadImages (imageFiles : list File) : M (list string) := λ st,
  match mapM uploadImage imageFiles with
  | Some imageUrls => (inr imageUrls, st)
  | None => (inl UploadError, st)
  end.

(** ** [POST /add-hotel] *)

Definition post_add_hotel (body : Patch) (imageFiles : list File)
    (now : Z) (freshId : string) : M Response :=
  tryCatch
    (imageUrls ← uploadImages imageFiles;
     let newHotel := newHotel body imageUrls now in
     let hotel := new_Hotel freshId newHotel in
     hotel ← saveNew hotel;
     mret (SendHotel 201 hotel))
    (λ e, mret (SendMessage 500 "Something went wrong")).

(** ** [GET /:id] *)

Definition get_by_id (id userIdReq : string) : M Response :=
  tryCatch
    (hotel ← findOne (primaryFilter id userIdReq);
     hotel ← match hotel with
             | Some _ => mret hotel
             | None => findOne (businessFilter id userIdReq)
             end;
     match hotel with
     | None => mret (SendMessage 404 "Hotel not found")
     | Some hotel => mret (SendHotel 200 hotel)
     end)
    (λ error, mret (SendMessage 500 "Error fetching hotel")).

(** ** [PUT /:hotelId] (Policy A) *)

Definition put_hotelId (hotelIdParam userIdReq : string) (body : Patch)
    (files : list File) (now : Z) : M Response :=
  tryCatch
    (let updatedHotel := set_p_lastUpdated now body in
     hotel ← tryCatch
               (findOneAndUpdate (primaryFilter hotelIdParam userIdReq)
                  updatedHotel true)
               (λ error,
                  findOneAndUpdate (businessFilter hotelIdParam userIdReq)
                    updatedHotel true);
     match hotel with
     | None => mret (SendMessage 404 "Hotel not found")
     | Some hotel =>
         updatedImageUrls ← uploadImages files;
         let hotel :=
           set_imageUrls
             (updatedImageUrls ++ default [] (p_imageUrls updatedHotel))
             hotel in
         saveImageUrls hotel;;
         mret (SendHotel 201 hotel)
     end)
    (λ error, mret (SendMessage 500 "Something went wrong")).

(** ** [PUT /update-hotel/:hotelId] (Policy B) *)

(** The lookup of the existing hotel. *)
Definition update_hotel_find (hotelIdParam : string) : M (option Hotel) :=
  tryCatch
    (findOne (byField Q_id hotelIdParam))
    (λ error, findOne (byField Q_hotelId hotelIdParam)).

(** The filter whose first match the lookup returns: [_id] when the
    identifier casts, [hotelId] when the cast throws. *)
Definition update_hotel_filter (hotelIdParam : string) : Filter :=
  match castObjectId sv hotelIdParam with
  | Some hex => byField Q_id hex
  | None => byField Q_hotelId hotelIdParam
  end.

(** What the handler does once the existing hotel is in hand: the
    uploads, the merge and the write. *)
Definition update_hotel_persist (hotelIdParam : string)
    (updatedFields : Patch) (imageFiles : list File) (now : Z)
    (existingHotel : Hotel) : M Response :=
  updatedImageUrls ←
    (if bool_decide (0 < length imageFiles)%nat
     then newImageUrls ← uploadImages imageFiles;
          mret (imageUrls existingHotel ++ newImageUrls)
     else mret (imageUrls existingHotel));
  hotel ← findOneAndUpdate
            (byField (queryField existingHotel hotelIdParam) hotelIdParam)
            (updatedHotel existingHotel updatedFields updatedImageUrls now)
            true;
  match hotel with
  | None => mret (SendMessage 404 "Hotel not found")
  | Some hotel => mret (SendHotel 200 hotel)
  end.

Definition put_update_hotel (hotelIdParam : string) (updatedFields : Patch)
    (imageFiles : list File) (now : Z) : M Response :=
  tryCatch
    (existingHotel ← update_hotel_find hotelIdParam;
     match existingHotel with
     | None => mret (SendMessage 404 "Hotel not found")
     | Some existingHotel =>
         update_hotel_persist hotelIdParam updatedFields imageFiles now
           existingHotel
     end)
    (λ e, mret (SendMessage 500 "Something went wrong")).

(** The same handler when other requests run between its two awaits on
    the collection: the lookup sees [st], the write sees [st']. *)
Definition put_update_hotel_interleaved (hotelIdParam : string)
    (updatedFields : Patch) (imageFiles : list File) (now : Z)
    (st st' : Store) : (Error + Response) * Store :=
  match update_hotel_find hotelIdParam st with
  | (inl e, _) => (inr (SendMessage 500 "Something went wrong"), st')
  | (inr None, _) => (inr (SendMessage 404 "Hotel not found"), st')
  | (inr (Some existingHotel), _) =>
      tryCatch
        (update_hotel_persist hotelIdParam updatedFields imageFiles now
           existingHotel)
        (λ e, mret (SendMessage 500 "Something went wrong")) st'
  end.

(** ** [POST /changePrice] *)

Definition post_changePrice (hotelIdBody : string) (newPrice : option Z)
    : M Response :=
  tryCatch
    (hotel ← findOneAndUpdate (ownerFilter hotelIdBody)
               (pricePatch newPrice) false;
     match hotel with
     | None => mret (SendMessage 400 "hotel not found")
     | Some hotel =>
         saveUnmodified hotel;;
         mret (SendEmpty 200)
     end)
    (λ error, mret (SendMessage 500 "something went wrong")).

(** ** The routes: multer, then the handler *)

(** An error of the middleware goes to [next]: the handler does not
    run. *)
Definition withFiles (maxCount : option nat) (files : list File)
    (handler : list File → M Response) : M Response :=
  match uploadArray maxCount files with
  | inl e => throw e
  | inr files => handler files
  end.

Definition route_post_add_hotel (body : Patch) (files : list File)
    (now : Z) (freshId : string) : M Response :=
  withFiles (Some 6%nat) files
    (λ imageFiles, post_add_hotel body imageFiles now freshId).

Definition route_put_hotelId (hotelIdParam userIdReq : string)
    (body : Patch) (files : list File) (now : Z) : M Response :=
  withFiles None files
    (λ files, put_hotelId hotelIdParam userIdReq body files now).

Definition route_put_update_hotel (hotelIdParam : string) (body : Patch)
    (files : list File) (now : Z) : M Response :=
  withFiles (Some 6%nat) files
    (λ imageFiles, put_update_hotel hotelIdParam body imageFiles now).

End Handlers.

(** ** A concrete set of collaborators, for the examples *)

Definition isHexDigit (a : ascii) : bool :=
  let n := N_of_ascii a in
  ((48 <=? n) && (n <=? 57) || (65 <=? n) && (n <=? 70)
   || (97 <=? n) && (n <=? 102))%N.

Definition lowerHex (a : ascii) : ascii :=
  let n := N_of_ascii a in
  if ((65 <=? n) && (n <=? 70))%N then ascii_of_N (n + 32) else a.

Fixpoint lowerHexString (s : string) : string :=
  match s with
  | EmptyString => EmptyString
  | String a rest => String (lowerHex a) (lowerHexString rest)
  end.

(** The ObjectId of a string of 24 hexadecimal digits, upper or lower case;
    its string form is in lower case. *)
Definition objectIdHex (s : string) : option string :=
  if (String.length s =? 24)%nat && forallb isHexDigit (list_ascii_of_string s)
  then Some (lowerHexString s)
  else None.

(** A schema that requires the owner and the descriptive paths. *)
Definition requiredPaths (h : Hotel) : bool :=
  bool_decide (is_Some (userId h)) && bool_decide (is_Some (name h))
  && bool_decide (is_Some (city h)) && bool_decide (is_Some (country h))
  && bool_decide (is_Some (description h)) && bool_decide (is_Some (type h))
  && bool_decide (is_Some (pricePerNight h))
  && bool_decide (is_Some (lastUpdated h)).

(** A media host that stores images and rejects anything else. *)
Definition imagesOnly (dataURI : string) : option string :=
  if String.prefix "data:image/" dataURI
  then Some ("https://media.example/" +:+ dataURI)
  else None.

Definition demo : Services :=
  {| castObjectId := objectIdHex; schemaOk := requiredPaths;
     cloudinaryUpload := imagesOnly |}.

Definition png (content : string) : File :=
  {| mimetype := "image/png"; buffer := content |}.

Definition pdf (content : string) : File :=
  {| mimetype := "application/pdf"; buffer := content |}.

Definition seaView : Hotel :=
  {| _id := "64b7f0c2a1d3e4f5a6b7c8d9"; userId := Some "u1";
     hotelId := Some "h1"; name := Some "Sea View"; city := Some "Goa";
     country := Some "India"; description := Some "By the beach";
     type := Some "Resort"; facilities := ["wifi"; "pool"];
     pricePerNight := Some 100; imageUrls := ["https://media.example/old"];
     lastUpdated := Some 1000; bookings := [] |}.

Definition renamePatch : Patch :=
  {| p_id := None; p_userId := None; p_hotelId := None;
     p_name := Some "Ocean View"; p_city := None; p_country := None;
     p_description := None; p_type := None; p_facilities := None;
     p_pricePerNight := None; p_imageUrls := None; p_lastUpdated := None;
     p_bookings := None |}.

(** A complete body for [POST /add-hotel], owned by [u1]. *)
Definition listing (businessKey : string) : Patch :=
  {| p_id := None; p_userId := Some "u1"; p_hotelId := Some businessKey;
     p_name := Some "Hill Top"; p_city := Some "Ooty";
     p_country := Some "India"; p_description := Some "In the hills";
     p_type := Some "Lodge"; p_facilities := Some ["wifi"; "pool"];
     p_pricePerNight := Some 100; p_imageUrls := None;
     p_lastUpdated := None; p_bookings := None |}.

(** A business key that also has the shape of an ObjectId. *)
Definition hexKey : string := "00000000000000000000cafe".

(** An older hotel of [u1] that already carries [hexKey]. *)
Definition older : Hotel :=
  {| _id := "64b7f0c2a1d3e4f5a6b7c8d0"; userId := Some "u1";
     hotelId := Some hexKey; name := Some "Old Inn"; city := Some "Pune";
     country := Some "India"; description := Some "Near the station";
     type := Some "Inn"; facilities := ["wifi"]; pricePerNight := Some 40;
     imageUrls := []; lastUpdated := Some 500; bookings := [] |}.

Definition freshKey : string := "64b7f0c2a1d3e4f5a6b7c8da".

(** The primary key of [seaView] as a client may type it. *)
Definition seaViewKeyUpper : string := "64B7F0C2A1D3E4F5A6B7C8D9".

(** The record [POST /add-hotel] builds at time 3000 from
    [listing hexKey] and one uploaded image. *)
Definition hillTop : Hotel :=
  construct freshKey None
    (newHotel (listing hexKey)
       ["https://media.example/data:image/png;base64,YQ=="] 3000).

(** A patch that renames the hotel and lists the stored image again. *)
Definition renameKeepPatch : Patch :=
  set_p_imageUrls ["https://media.example/old"] renamePatch.

(** A patch that renames the hotel and carries an image list of its own. *)
Definition renameSwapPatch : Patch :=
  set_p_imageUrls ["https://elsewhere.example/x"] renamePatch.

(** [seaView] after [renamePatch] was written at time 2000. *)
Definition seaViewRenamed : Hotel :=
  {| _id := "64b7f0c2a1d3e4f5a6b7c8d9"; userId := Some "u1";
     hotelId := Some "h1"; name := Some "Ocean View"; city := Some "Goa";
     country := Some "India"; description := Some "By the beach";
     type := Some "Resort"; facilities := ["wifi"; "pool"];
     pricePerNight := Some 100; imageUrls := ["https://media.example/old"];
     lastUpdated := Some 2000; bookings := [] |}.

(** [seaView] after its price was set to 120. *)
Definition seaViewRepriced : Hotel :=
  {| _id := "64b7f0c2a1d3e4f5a6b7c8d9"; userId := Some "u1";
     hotelId := Some "h1"; name := Some "Sea View"; city := Some "Goa";
     country := Some "India"; description := Some "By the beach";
     type := Some "Resort"; facilities := ["wifi"; "pool"];
     pricePerNight := Some 120; imageUrls := ["https://media.example/old"];
     lastUpdated := Some 1000; bookings := [] |}.

(** A hotel of [u2] whose business key spells the primary key of [seaView]
    in upper case. *)
Definition annex : Hotel :=
  {| _id := "64b7f0c2a1d3e4f5a6b7c8d3"; userId := Some "u2";
     hotelId := Some seaViewKeyUpper; name := Some "Annex";
     city := Some "Goa"; country := Some "India";
     description := Some "Behind the beach"; type := Some "Hostel";
     facilities := ["wifi"]; pricePerNight := Some 30;
     imageUrls := ["https://media.example/annex"];
     lastUpdated := Some 900; bookings := [] |}.

(** A body that renames the hotel and names the primary key of [annex]. *)
Definition renameAnnexPatch : Patch :=
  spread renamePatch
    {| p_id := Some (Raw "64b7f0c2a1d3e4f5a6b7c8d3"); p_userId := None;
       p_hotelId := None; p_name := None; p_city := None; p_country := None;
       p_description := None; p_type := None; p_facilities := None;
       p_pricePerNight := None; p_imageUrls := None; p_lastUpdated := None;
       p_bookings := None |}.

(** [annex] after the paths of [seaView], renamed, were written over it at
    time 2000. *)
Definition annexOverwritten : Hotel :=
  {| _id := "64b7f0c2a1d3e4f5a6b7c8d3"; userId := Some "u1";
     hotelId := Some "h1"; name := Some "Ocean View"; city := Some "Goa";
     country := Some "India"; description := Some "By the beach";
     type := Some "Resort"; facilities := ["wifi"; "pool"];
     pricePerNight := Some 100; imageUrls := ["https://media.example/old"];
     lastUpdated := Some 2000; bookings := [] |}.

(** * The routes the pipeline does not cover *)

(** ** [GET /] of [my-hotels.ts] *)

(** What the list route sends. *)
Inductive ListResponse :=
  | SendHotels (status : nat) (hotels : list Hotel)
  | SendListMessage (status : nat) (message : string).

Section MoreHandlers.
Context (sv : Services).

(** [Hotel.find(q)]: every match, in natural order. *)
Definition find (q : Filter) : M (list Hotel) := λ st,
  match castFilter sv q with
  | None => (inl CastError, st)
  | Some q => (inr (filter (λ h, matches q h) st), st)
  end.

Definition get_my_hotels (userIdReq : string) : M ListResponse :=
  tryCatch
    (hotels ← find (ownerFilter userIdReq);
     mret (SendHotels 200 hotels))
    (λ error, mret (SendListMessage 500 "Error fetching hotels")).

(** The filter whose first match [PUT /:hotelId] updates when the body
    names no [_id]: by [_id] when the identifier casts, by [hotelId] when
    the cast throws. *)
Definition put_hotelId_filter (hotelIdParam userIdReq : string) : Filter :=
  match castObjectId sv hotelIdParam with
  | Some hex => primaryFilter hex userIdReq
  | None => businessFilter hotelIdParam userIdReq
  end.

End MoreHandlers.

(** The record [PUT /:hotelId] stores and sends when it succeeds on the
    record [h]. *)
Definition put_hotelId_result (h : Hotel) (body : Patch)
    (updatedImageUrls : list string) (now : Z) : Hotel :=
  set_imageUrls (updatedImageUrls ++ default [] (p_imageUrls body))
    (merge h (set_p_lastUpdated now body)).

(** A file that reaches [limits.fileSize]. *)
Definition tooLarge (f : File) : Prop :=
  (fileSize ≤ N.of_nat (String.length (buffer f)))%N.

(** A file of [n] bytes. *)
Fixpoint padding (n : nat) : string :=
  match n with
  | O => EmptyString
  | S n => String "a" (padding n)
  end.

(** An image one byte beyond [limits.fileSize]. *)
Definition oversized : File := png (padding (N.to_nat (fileSize + 1))).

(** An image of exactly [limits.fileSize] bytes. *)
Definition atLimit : File := png (padding (N.to_nat fileSize)).

(** A body that names the primary key of a stored hotel. *)
Definition listingWithKey (key : string) : Patch :=
  spread (listing "h3")
    {| p_id := Some (Raw key); p_userId := None; p_hotelId := None;
       p_name := None; p_city := None; p_country := None;
       p_description := None; p_type := None; p_facilities := None;
       p_pricePerNight := None; p_imageUrls := None; p_lastUpdated := None;
       p_bookings := None |}.

(** A hotel of another owner. *)
Definition cityInn : Hotel :=
  {| _id := "64b7f0c2a1d3e4f5a6b7c8d1"; userId := Some "u2";
     hotelId := Some "h9"; name := Some "City Inn"; city := Some "Delhi";
     country := Some "India"; description := Some "Downtown";
     type := Some "Inn"; facilities := ["wifi"]; pricePerNight := Some 60;
     imageUrls := []; lastUpdated := Some 700; bookings := [] |}.

(** A second hotel of [u1]. *)
Definition lakeHouse : Hotel :=
  {| _id := "64b7f0c2a1d3e4f5a6b7c8d2"; userId := Some "u1";
     hotelId := Some "h2"; name := Some "Lake House"; city := Some "Udaipur";
     country := Some "India"; description := Some "On the lake";
     type := Some "Villa"; facilities := ["boat"]; pricePerNight := Some 300;
     imageUrls := ["https://media.example/lake"]; lastUpdated := Some 800;
     bookings := [] |}.

(** An ObjectId that no stored hotel has. *)
Definition unusedKey : string := "64b7f0c2a1d3e4f5a6b7c8ff".

(** ** [src/routes/auth.ts] *)

Module Auth.

(** ["admin" | "user"] *)
Inductive Role := RoleAdmin | RoleUser.

(** [UserType] of [shared/types]; [password] is the stored hash. *)
Record User := {
  _id : string;
  email : string;
  password : string;
  firstName : string;
  lastName : string;
  role : Role
}.

(** [tokenPayload]: [isAdmin] tells whether the payload has
    [isAdmin: true]. *)
Record TokenPayload := {
  userId : string;
  isAdmin : bool
}.

(** The libraries: [bcrypt.compare(data, hash)], [jwt.sign] with the
    secret of the environment and [expiresIn: "1d"] (the token, or the
    message of the error it throws, as when the secret is not set),
    [isEmail] of express-validator, and whether [NODE_ENV] is
    [production]. *)
Record AuthServices := {
  bcryptCompare : string → string → bool;
  jwtSign : TokenPayload → string + string;
  isEmail : string → bool;
  production : bool
}.

(** [req.body] of the two login routes, with both fields present. *)
Record LoginBody := {
  body_email : string;
  body_password : string
}.

(** The options [res.cookie] is given. *)
Record Cookie := {
  cookieName : string;
  cookieValue : string;
  httpOnly : option bool;
  secure : option bool;
  maxAge : option Z;
  expires : option Z
}.

Inductive Json :=
  | JsonUserId (userId : string)
  | JsonMessage (message : string)
  | JsonErrors (messages : list string)
  | NoBody.

(** What a route of [auth.ts] answers: the status, the cookie it sets if
    any, the body. *)
Record Reply := {
  status : nat;
  cookie : option Cookie;
  body : Json
}.

Global Instance Role_eq_dec : EqDecision Role.
Proof. solve_decision. Defined.

Section Routes.
Context (sv : AuthServices).

(** [validationResult(req)] after [loginValidationRules]: the messages of
    the rules that fail, in the order of the rules. *)
Definition loginValidationRules (b : LoginBody) : list string :=
  (if isEmail sv (body_email b) then [] else ["Email is required"])
  ++ (if (6 <=? String.length (body_password b))%nat then []
      else ["Password with 6 or more characters required"]).

(** [User.findOne({ email })] *)
Definition findOneByEmail (users : list User) (anEmail : string)
    : option User :=
  snd <$> list_find (λ u, email u = anEmail) users.

(** [authenticateUser]: the token and the user id, or the message of the
    error thrown. *)
Definition authenticateUser (users : list User) (anEmail aPassword : string)
    (requireAdmin : bool) : string + (string * string) :=
  match findOneByEmail users anEmail with
  | None => inl "Invalid Credentials"
  | Some user =>
      if requireAdmin && negb (bool_decide (role user = RoleAdmin))
      then inl "Access denied. Admin only."
      else
        let isMatch := bcryptCompare sv aPassword (password user) in
        if negb isMatch then inl "Invalid Credentials"
        else
          let tokenPayload :=
            {| userId := _id user; isAdmin := requireAdmin |} in
          match jwtSign sv tokenPayload with
          | inl message => inl message
          | inr token => inr (token, _id user)
          end
  end.

Definition handleAuthResponse (token userId : string) : Reply :=
  {| status := 200;
     cookie := Some {| cookieName := "auth_token"; cookieValue := token;
                       httpOnly := Some true; secure := Some (production sv);
                       maxAge := Some 86400000; expires := None |};
     body := JsonUserId userId |}.

(** [POST /login] *)
Definition login (users : list User) (b : LoginBody) : Reply :=
  match loginValidationRules b with
  | (_ :: _) as errors =>
      {| status := 400; cookie := None; body := JsonErrors errors |}
  | [] =>
      match authenticateUser users (body_email b) (body_password b) false with
      | inr (token, userId) => handleAuthResponse token userId
      | inl message =>
          {| status := if bool_decide (message = "Invalid Credentials")
                       then 400 else 500;
             cookie := None; body := JsonMessage message |}
      end
  end.

(** [POST /admin/login] *)
Definition admin_login (users : list User) (b : LoginBody) : Reply :=
  match loginValidationRules b with
  | (_ :: _) as errors =>
      {| status := 400; cookie := None; body := JsonErrors errors |}
  | [] =>
      match authenticateUser users (body_email b) (body_password b) true with
      | inr (token, userId) => handleAuthResponse token userId
      | inl message =>
          {| status :=
               if bool_decide (message = "Access denied. Admin only.")
               then 403
               else if bool_decide (message = "Invalid Credentials")
                    then 400 else 500;
             cookie := None; body := JsonMessage message |}
      end
  end.

End Routes.

(** [GET /validate-token], behind [verifyToken]. *)
Definition validate_token (userIdReq : string) : Reply :=
  {| status := 200; cookie := None; body := JsonUserId userIdReq |}.

(** [POST /logout]: the cookie is overwritten by an empty one that expired
    at [new Date(0)]. *)
Definition logout : Reply :=
  {| status := 200;
     cookie := Some {| cookieName := "auth_token"; cookieValue := "";
                       httpOnly := None; secure := None; maxAge := None;
                       expires := Some 0 |};
     body := NoBody |}.

(** Example collaborators: hashes are the password behind a prefix, tokens
    spell out their payload, an email has an [@]. *)
Definition toyHash (aPassword : string) : string := "hash:" +:+ aPassword.

Fixpoint hasAt (s : string) : bool :=
  match s with
  | EmptyString => false
  | String a rest => Ascii.eqb a "@" || hasAt rest
  end.

Definition toy : AuthServices :=
  {| bcryptCompare := λ data hash, String.eqb (toyHash data) hash;
     jwtSign := λ p, inr ("jwt:" +:+ userId p
                          +:+ (if isAdmin p then ":admin" else ""));
     isEmail := hasAt;
     production := true |}.

(** The same with no JWT secret in the environment. *)
Definition toyNoSecret : AuthServices :=
  {| bcryptCompare := bcryptCompare toy;
     jwtSign := λ _, inl "secretOrPrivateKey must have a value";
     isEmail := hasAt;
     production := true |}.

Definition alice : User :=
  {| _id := "64b7f0c2a1d3e4f5a6b7c8a1"; email := "alice@example.com";
     password := toyHash "alice-secret"; firstName := "Alice";
     lastName := "A"; role := RoleAdmin |}.

Definition bob : User :=
  {| _id := "64b7f0c2a1d3e4f5a6b7c8b2"; email := "bob@example.com";
     password := toyHash "bob-secret"; firstName := "Bob";
     lastName := "B"; role := RoleUser |}.

Definition credentials (anEmail aPassword : string) : LoginBody :=
  {| body_email := anEmail; body_password := aPassword |}.

End Auth.

(** * Properties *)

(** Unfolds a filter into the equalities it stands for. *)
Ltac matches_spec :=
  unfold matches; simpl; rewrite ?andb_True, ?bool_decide_spec;
  unfold Is_true; intuition congruence.

(** ** The monad *)

Lemma bind_ret_l {A B} (a : A) (k : A → M B) st : (mret a ≫= k) st = k a st.
Proof. reflexivity. Qed.

Lemma bind_throw {A B} (e : Error) (k : A → M B) st :
  (throw e ≫= k) st = (inl e, st).
Proof. reflexivity. Qed.

Lemma tryCatch_ret {A} (a : A) (h : Error → M A) st :
  tryCatch (mret a) h st = (inr a, st).
Proof. reflexivity. Qed.

Lemma tryCatch_throw {A} (e : Error) (h : Error → M A) st :
  tryCatch (throw e) h st = h e st.
Proof. reflexivity. Qed.

(** ** [base64] on the usual test vectors *)

Example base64_Man : base64 "Man" = "TWFu".
Proof. reflexivity. Qed.

Example base64_pad1 : base64 "light work." = "bGlnaHQgd29yay4=".
Proof. reflexivity. Qed.

Example base64_pad2 : base64 "M" = "TQ==".
Proof. reflexivity. Qed.

(** ** The example driver *)

Example objectIdHex_canonical :
  objectIdHex (_id seaView) = Some (_id seaView).
Proof. reflexivity. Qed.

Example objectIdHex_upper : objectIdHex seaViewKeyUpper = Some (_id seaView).
Proof. reflexivity. Qed.

Example objectIdHex_malformed : objectIdHex "h1" = None.
Proof. reflexivity. Qed.

(** ** What the filters match *)

Lemma matches_primaryFilter id u h :
  matches (primaryFilter id u) h ↔ _id h = id ∧ userId h = Some u.
Proof. matches_spec. Qed.

Lemma matches_businessFilter id u h :
  matches (businessFilter id u) h ↔ hotelId h = Some id ∧ userId h = Some u.
Proof. matches_spec. Qed.

Lemma matches_byField_id id h : matches (byField Q_id id) h ↔ _id h = id.
Proof. matches_spec. Qed.

Lemma matches_byField_hotelId id h :
  matches (byField Q_hotelId id) h ↔ hotelId h = Some id.
Proof. matches_spec. Qed.

Lemma matches_ownerFilter id h :
  matches (ownerFilter id) h ↔ userId h = Some id.
Proof. matches_spec. Qed.

Lemma list_find_lookup {A} (P : A → Prop) `{∀ x, Decision (P x)} l i x :
  list_find P l = Some (i, x) → l !! i = Some x.
Proof. by intros (? & ? & ?)%list_find_Some. Qed.

(** The first match of a store extended at its end. *)
Lemma list_find_snoc {A} (P : A → Prop) `{∀ x, Decision (P x)} l x :
  list_find P l = None → P x →
  list_find P (l ++ [x]) = Some (length l, x).
Proof.
  intros Hl Hx. rewrite list_find_app_r by done. simpl.
  rewrite decide_True by done. done.
Qed.

Lemma list_find_snoc_None {A} (P : A → Prop) `{∀ x, Decision (P x)} l x :
  list_find P l = None → ¬ P x → list_find P (l ++ [x]) = None.
Proof.
  intros Hl Hx. apply list_find_app_None. split; [done|]. simpl.
  by rewrite decide_False.
Qed.

Lemma list_find_None_all (P : Hotel → Prop) `{∀ x, Decision (P x)}
    (st : Store) :
  (∀ r, r ∈ st → P r → False) → list_find P st = None.
Proof.
  intros Hst. apply list_find_None, Forall_forall. intros r Hr HP. eauto.
Qed.

(** ** The casts *)

Section Casts.
Context (sv : Services).

Lemma castFilter_primaryFilter id u :
  castFilter sv (primaryFilter id u)
  = (λ hex, primaryFilter hex u) <$> castObjectId sv id.
Proof. unfold castFilter; simpl. by destruct (castObjectId sv id). Qed.

Lemma castFilter_businessFilter id u :
  castFilter sv (businessFilter id u) = Some (businessFilter id u).
Proof. reflexivity. Qed.

Lemma castFilter_byField_id id :
  castFilter sv (byField Q_id id) = byField Q_id <$> castObjectId sv id.
Proof. unfold castFilter; simpl. by destruct (castObjectId sv id). Qed.

Lemma castFilter_byField_hotelId id :
  castFilter sv (byField Q_hotelId id) = Some (byField Q_hotelId id).
Proof. reflexivity. Qed.

Lemma castFilter_ownerFilter id :
  castFilter sv (ownerFilter id) = Some (ownerFilter id).
Proof. reflexivity. Qed.
End Casts.

(** ** Reading never writes *)

Section ReadOnly.
Context (sv : Services).

Lemma findOne_snd q st : (findOne sv q st).2 = st.
Proof. unfold findOne. by destruct (castFilter sv q). Qed.

Lemma uploadImages_snd files st : (uploadImages sv files st).2 = st.
Proof. unfold uploadImages. by destruct (mapM _ files). Qed.

Lemma update_hotel_find_snd id st : (update_hotel_find sv id st).2 = st.
Proof.
  unfold update_hotel_find, tryCatch, findOne.
  rewrite castFilter_byField_id.
  by destruct (castObjectId sv id).
Qed.

Lemma get_by_id_snd id u st : (get_by_id sv id u st).2 = st.
Proof.
  unfold get_by_id, tryCatch, mbind, M_bind, bind, findOne.
  rewrite castFilter_primaryFilter.
  destruct (castObjectId sv id); simpl; [|done].
  by destruct (list_find _ st) as [[? ?]|]; simpl;
    [|destruct (list_find _ st) as [[? ?]|]].
Qed.
End ReadOnly.

(** ** [GET /:id]: resolution by either key *)

Section Resolve.
Context (sv : Services).

(** An identifier the driver cannot cast makes the first lookup throw;
    the throw is caught by the handler's only [catch], which answers 500:
    the lookup by business key is not attempted. *)
Lemma get_by_id_malformed id u st :
  castObjectId sv id = None →
  get_by_id sv id u st = (inr (SendMessage 500 "Error fetching hotel"), st).
Proof.
  intros Hc.
  unfold get_by_id, tryCatch, mbind, M_bind, bind, findOne.
  by rewrite castFilter_primaryFilter, Hc.
Qed.

(** On a well-formed identifier the handler answers with the first match
    by primary key, else the first match by business key, else 404. *)
Lemma get_by_id_wellformed id hex u st :
  castObjectId sv id = Some hex →
  get_by_id sv id u st =
    (inr (match list_find (λ h, matches (primaryFilter hex u) h) st with
          | Some (_, h) => SendHotel 200 h
          | None =>
              match list_find (λ h, matches (businessFilter id u) h) st with
              | Some (_, h) => SendHotel 200 h
              | None => SendMessage 404 "Hotel not found"
              end
          end), st).
Proof.
  intros Hc.
  unfold get_by_id, tryCatch, mbind, M_bind, bind, findOne.
  rewrite castFilter_primaryFilter, Hc; simpl.
  destruct (list_find _ st) as [[i h]|]; simpl; [done|].
  by destruct (list_find _ st) as [[j h]|].
Qed.
End Resolve.

(** C3 (the code departs from the claim).  The claim: when the
    primary-key lookup throws on a malformed identifier, [GET /:id] goes on
    to the business-key lookup, and answers NotFound, never a generic
    internal error, when neither lookup succeeds.  Here the identifier [h1]
    is not an ObjectId: the handler answers 500 although the hotel whose
    business key is [h1] belongs to the requesting owner and the
    business-key lookup would return it; on an empty collection it answers
    500 where the claim says NotFound. *)
Theorem C3_get_by_id_malformed_key_answers_500 :
  castObjectId demo "h1" = None
  ∧ findOne demo (businessFilter "h1" "u1") [seaView]
    = (inr (Some seaView), [seaView])
  ∧ get_by_id demo "h1" "u1" [seaView]
    = (inr (SendMessage 500 "Error fetching hotel"), [seaView])
  ∧ get_by_id demo "h1" "u1" []
    = (inr (SendMessage 500 "Error fetching hotel"), []).
Proof. repeat split; vm_compute; reflexivity. Qed.

(** ** [PUT /:hotelId] (Policy A) *)

(** C1 (the code departs from the claim).  The claim: when one file of the
    batch fails to upload, the stored record is as it was before the call.
    Here the second of three files is rejected by the media host: the
    handler answers 500, and the stored record already carries the patched
    name and the new [lastUpdated], because [findOneAndUpdate] ran before
    the uploads. *)
Theorem C1_put_hotelId_upload_failure_keeps_patch :
  mapM (uploadImage demo) [png "a"; pdf "b"; png "c"] = None
  ∧ put_hotelId demo "64b7f0c2a1d3e4f5a6b7c8d9" "u1" renamePatch
      [png "a"; pdf "b"; png "c"] 2000 [seaView]
    = (inr (SendMessage 500 "Something went wrong"), [seaViewRenamed])
  ∧ [seaViewRenamed] ≠ [seaView].
Proof. repeat split; vm_compute; congruence. Qed.

(** ** [POST /changePrice] *)

(** C8 (the code departs from the claim).  The claim: every mutation,
    the price adjustment included, overwrites [lastUpdated] with the time
    of the mutation.  [POST /changePrice] writes [pricePerNight] alone: the
    price of the stored record changes and its [lastUpdated] stays at the
    time of the previous write. *)
Theorem C8_changePrice_leaves_lastUpdated :
  post_changePrice demo "u1" (Some 120) [seaView]
    = (inr (SendEmpty 200), [seaViewRepriced])
  ∧ pricePerNight seaViewRepriced ≠ pricePerNight seaView
  ∧ lastUpdated seaViewRepriced = lastUpdated seaView.
Proof. repeat split; vm_compute; congruence. Qed.

(** ** The file limit of the routes *)

(** C9 (the code departs from the claim).  The claim: the three routes that
    take image files reject a request with more than 6 of them.
    [PUT /:hotelId] installs [upload.array("imageFiles")] without a count:
    a request with 7 files reaches the handler, which uploads all 7 and
    answers 201; the same 7 files are refused on the two other routes. *)
Theorem C9_put_hotelId_takes_seven_files :
  uploadArray None (replicate 7 (png "a")) = inr (replicate 7 (png "a"))
  ∧ (∃ hotel st',
       route_put_hotelId demo "h1" "u1" renamePatch (replicate 7 (png "a"))
         2000 [seaView] = (inr (SendHotel 201 hotel), st')
       ∧ length (imageUrls hotel) = 7%nat)
  ∧ route_put_update_hotel demo "h1" renamePatch (replicate 7 (png "a"))
      2000 [seaView] = (inl MulterUnexpectedFile, [seaView])
  ∧ route_post_add_hotel demo (listing "h2") (replicate 7 (png "a"))
      2000 freshKey [seaView] = (inl MulterUnexpectedFile, [seaView]).
Proof.
  split; [by vm_compute|]. split; [|split; by vm_compute].
  eexists _, _. split; [vm_compute; reflexivity|]. reflexivity.
Qed.

(** ** Image references under [PUT /:hotelId] *)

Lemma keepsImageUrls_refl P st : keepsImageUrls P st st.
Proof. intros i h x ? ? ?. eauto. Qed.

Lemma keepsImageUrls_trans P st1 st2 st3 :
  keepsImageUrls P st1 st2 → keepsImageUrls P st2 st3 →
  keepsImageUrls P st1 st3.
Proof.
  intros H12 H23 i h x Hi Hx HP.
  destruct (H12 i h x Hi Hx HP) as (h2 & Hi2 & Hx2). eauto.
Qed.

Lemma keepsImageUrls_insert (P : string → Prop) st k d d' :
  st !! k = Some d →
  (∀ x, x ∈ imageUrls d → P x → x ∈ imageUrls d') →
  keepsImageUrls P st (<[k:=d']> st).
Proof.
  intros Hk Hd i h x Hi Hx HP. destruct (decide (k = i)) as [->|Hne].
  - exists d'. rewrite list_lookup_insert_eq by eauto using lookup_lt_Some.
    split; [done|]. apply Hd; [|done]. congruence.
  - exists h. by rewrite list_lookup_insert_ne.
Qed.

Lemma imageUrls_merge_stamp h body now :
  imageUrls (merge h (set_p_lastUpdated now body))
  = default (imageUrls h) (p_imageUrls body).
Proof. simpl. by destruct (p_imageUrls body). Qed.

Lemma applyUpdate_Some h uid u h' :
  applyUpdate h uid u = Some h' → h' = merge h u.
Proof.
  unfold applyUpdate. destruct uid; [case_bool_decide|]; congruence.
Qed.

Section PolicyA.
Context (sv : Services).

(** What [findOneAndUpdate] with the stamped body leaves in the store. *)
Lemma findOneAndUpdate_stamp_keeps q body now st r st' :
  findOneAndUpdate sv q (set_p_lastUpdated now body) true st = (r, st') →
  keepsImageUrls (λ x, x ∈ default [] (p_imageUrls body)) st st'.
Proof.
  unfold findOneAndUpdate.
  destruct (castFilter sv q) as [q'|];
    [|intros [= <- <-]; apply keepsImageUrls_refl].
  destruct (castUpdateId sv _) as [uid|];
    [|intros [= <- <-]; apply keepsImageUrls_refl].
  destruct (list_find _ st) as [[i h]|] eqn:Hfind;
    [|intros [= <- <-]; apply keepsImageUrls_refl].
  destruct (applyUpdate h uid _) as [h'|] eqn:Happ;
    [|intros [= <- <-]; apply keepsImageUrls_refl].
  intros [= <- <-]. apply applyUpdate_Some in Happ as ->.
  eapply keepsImageUrls_insert; [by eapply list_find_lookup|].
  intros x Hx HP. rewrite imageUrls_merge_stamp.
  by destruct (p_imageUrls body).
Qed.

Lemma saveImageUrls_keeps urls L doc st r st' :
  imageUrls doc = urls ++ L →
  saveImageUrls sv doc st = (r, st') →
  keepsImageUrls (λ x, x ∈ L) st st'.
Proof.
  intros Hdoc. unfold saveImageUrls.
  destruct (negb (schemaOk sv doc));
    [intros [= <- <-]; apply keepsImageUrls_refl|].
  destruct (list_find _ st) as [[j d]|] eqn:Hfind;
    [|intros [= <- <-]; apply keepsImageUrls_refl].
  intros [= <- <-].
  eapply keepsImageUrls_insert; [by eapply list_find_lookup|].
  intros x _ HL. simpl. rewrite Hdoc. apply elem_of_app. by right.
Qed.

(** The first write of the handler: by primary key, and by business key
    when that throws. *)
Lemma put_hotelId_first_write_keeps id u body now st r st' :
  tryCatch
    (findOneAndUpdate sv (primaryFilter id u) (set_p_lastUpdated now body)
       true)
    (λ _, findOneAndUpdate sv (businessFilter id u)
            (set_p_lastUpdated now body) true) st = (r, st') →
  keepsImageUrls (λ x, x ∈ default [] (p_imageUrls body)) st st'.
Proof.
  unfold tryCatch.
  destruct (findOneAndUpdate sv (primaryFilter id u) _ true st)
    as [[e|o] s1] eqn:H1.
  - intros H2. eapply keepsImageUrls_trans;
      eauto using findOneAndUpdate_stamp_keeps.
  - intros [= <- <-]. eauto using findOneAndUpdate_stamp_keeps.
Qed.

Lemma put_hotelId_keeps_listed id u body files now st :
  keepsImageUrls (λ x, x ∈ default [] (p_imageUrls body)) st
    (put_hotelId sv id u body files now st).2.
Proof.
  unfold put_hotelId.
  unfold tryCatch at 1. unfold mbind, M_bind, bind at 1.
  destruct (tryCatch _ _ st) as [[e|[hotel|]] s1] eqn:H1; simpl;
    try (by eapply put_hotelId_first_write_keeps).
  apply put_hotelId_first_write_keeps in H1.
  unfold bind, uploadImages.
  destruct (mapM _ files) as [urls|]; simpl; [|done].
  destruct (saveImageUrls sv _ s1) as [[e|[]] s2] eqn:H2; simpl;
    (eapply keepsImageUrls_trans; [exact H1|]);
    eapply saveImageUrls_keeps; try exact H2; simpl;
    by destruct (p_imageUrls body).
Qed.
End PolicyA.

(** C2 (amended).  The claim as stated fails: [PUT /:hotelId] sets
    [imageUrls] to the uploaded URLs followed by the image URLs of the body,
    so a stored reference that the body does not list is dropped.  What
    holds for every record and every call, whatever its outcome: every
    reference present before the call that the body's image-URL list names
    is still present on the record after the call. *)
Theorem C2_put_hotelId_keeps_listed_imageUrls
    sv id u body files now (st : Store) (i : nat) h x :
  st !! i = Some h →
  x ∈ imageUrls h →
  x ∈ default [] (p_imageUrls body) →
  ∃ h', (put_hotelId sv id u body files now st).2 !! i = Some h'
        ∧ x ∈ imageUrls h'.
Proof.
  intros Hi Hx HL.
  exact (put_hotelId_keeps_listed sv id u body files now st i h x Hi Hx HL).
Qed.

Lemma C2_witness :
  ∃ h', (put_hotelId demo "64b7f0c2a1d3e4f5a6b7c8d9" "u1" renameKeepPatch
           [png "a"] 2000 [seaView]).2 !! 0%nat = Some h'
        ∧ "https://media.example/old" ∈ imageUrls h'.
Proof.
  apply (C2_put_hotelId_keeps_listed_imageUrls demo
           "64b7f0c2a1d3e4f5a6b7c8d9" "u1" renameKeepPatch [png "a"] 2000
           [seaView] 0%nat seaView "https://media.example/old").
  - reflexivity.
  - simpl. constructor.
  - simpl. constructor.
Defined.

(** C2, the claim as stated, refuted: an update by the owner with no file
    and no image list in the body succeeds and leaves the record without
    the reference it had. *)
Lemma C2_counterexample :
  ∃ h',
    put_hotelId demo "64b7f0c2a1d3e4f5a6b7c8d9" "u1" renamePatch [] 2000
      [seaView] = (inr (SendHotel 201 h'), [h'])
    ∧ "https://media.example/old" ∈ imageUrls seaView
    ∧ "https://media.example/old" ∉ imageUrls h'.
Proof.
  eexists. split; [vm_compute; reflexivity|].
  split; [simpl; constructor|]. simpl. apply not_elem_of_nil.
Qed.

(** On success the record carries the uploaded URLs, then the listed
    ones. *)
Lemma put_hotelId_success_imageUrls sv id u body files now st hotel st' :
  put_hotelId sv id u body files now st = (inr (SendHotel 201 hotel), st') →
  ∃ urls, mapM (uploadImage sv) files = Some urls
          ∧ imageUrls hotel = urls ++ default [] (p_imageUrls body).
Proof.
  unfold put_hotelId.
  unfold tryCatch at 1. unfold mbind, M_bind, bind at 1.
  destruct (tryCatch _ _ st) as [[e|[h1|]] s1]; simpl; try discriminate.
  unfold bind, uploadImages.
  destruct (mapM _ files) as [urls|]; simpl; [|discriminate].
  destruct (saveImageUrls sv _ s1) as [[e|[]] s2]; simpl; [discriminate|].
  intros [= <- <-]. exists urls. split; [done|]. simpl.
  by destruct (p_imageUrls body).
Qed.

(** When the uploads fail after the record was matched by primary key, the
    patch is already written: the general form of the evaluation in C1. *)
Lemma put_hotelId_upload_failure sv id hex u body files now st i h :
  castObjectId sv id = Some hex →
  p_id body = None →
  list_find (λ h, matches (primaryFilter hex u) h) st = Some (i, h) →
  mapM (uploadImage sv) files = None →
  put_hotelId sv id u body files now st
  = (inr (SendMessage 500 "Something went wrong"),
     <[i:=merge h (set_p_lastUpdated now body)]> st).
Proof.
  intros Hc Hid Hfind Hup.
  unfold put_hotelId, tryCatch, mbind, M_bind, bind, findOneAndUpdate,
    uploadImages, applyUpdate.
  rewrite castFilter_primaryFilter, Hc; simpl.
  unfold castUpdateId; simpl. rewrite Hid; simpl.
  rewrite Hfind; simpl. by rewrite Hup.
Qed.

(** ** [POST /add-hotel] *)

Section Create.
Context (sv : Services).

(** [uploadImages] resolves with exactly one URL per file, in the order
    of the files. *)
Lemma uploadImages_Forall2 files urls st :
  Forall2 (λ f url, uploadImage sv f = Some url) files urls →
  uploadImages sv files st = (inr urls, st).
Proof.
  intros H%mapM_Some_2. unfold uploadImages. by rewrite H.
Qed.

Lemma uploadImages_inv files urls st st' :
  uploadImages sv files st = (inr urls, st') →
  Forall2 (λ f url, uploadImage sv f = Some url) files urls ∧ st' = st.
Proof.
  unfold uploadImages. destruct (mapM _ files) as [l|] eqn:H; [|done].
  intros [= <- <-]. by apply mapM_Some_1 in H.
Qed.

Lemma uploadImages_failure files st :
  Exists (λ f, uploadImage sv f = None) files →
  uploadImages sv files st = (inl UploadError, st).
Proof.
  intros H%mapM_None_2. unfold uploadImages. by rewrite H.
Qed.

Lemma castUpdateId_newHotel body urls now :
  castUpdateId sv (newHotel body urls now) = castUpdateId sv body.
Proof. reflexivity. Qed.

(** A created record, taken apart. *)
Lemma post_add_hotel_inv body files now freshId st R st1 :
  post_add_hotel sv body files now freshId st
  = (inr (SendHotel 201 R), st1) →
  ∃ urls uid,
    Forall2 (λ f url, uploadImage sv f = Some url) files urls
    ∧ castUpdateId sv body = Some uid
    ∧ R = construct freshId uid (newHotel body urls now)
    ∧ st1 = st ++ [R]
    ∧ schemaOk sv R = true
    ∧ _id R ∉ (_id <$> st).
Proof.
  unfold post_add_hotel, tryCatch, mbind, M_bind, bind.
  destruct (uploadImages sv files st) as [[e|urls] s0] eqn:Hup; simpl;
    [discriminate|].
  apply uploadImages_inv in Hup as [Hurls ->].
  unfold saveNew, new_Hotel. rewrite castUpdateId_newHotel.
  destruct (castUpdateId sv body) as [uid|] eqn:Hcast; simpl;
    [|discriminate].
  destruct (schemaOk sv _) eqn:Hok; simpl; [|discriminate].
  case_bool_decide as Hdup; simpl; [discriminate|].
  intros [= <- <-]. exists urls, uid. by rewrite Hok.
Qed.
End Create.

(** C7.  [POST /add-hotel]: when every file uploads, [uploadImages] yields
    one URL per file in the order of the files, the record built from the
    body has exactly these URLs as [imageUrls] and the call time as
    [lastUpdated], and, the store accepting it, it is appended to the
    collection and sent with status 201; when one upload fails, the
    collection is left as it was and the answer is the 500 message. *)
Theorem C7_post_add_hotel_uploads_then_persists
    sv body files now freshId (st : Store) :
  (∀ urls uid,
     Forall2 (λ f url, uploadImage sv f = Some url) files urls →
     castUpdateId sv body = Some uid →
     let hotel := construct freshId uid (newHotel body urls now) in
     uploadImages sv files st = (inr urls, st)
     ∧ length urls = length files
     ∧ imageUrls hotel = urls
     ∧ lastUpdated hotel = Some now
     ∧ (schemaOk sv hotel = true →
        _id hotel ∉ (_id <$> st) →
        post_add_hotel sv body files now freshId st
        = (inr (SendHotel 201 hotel), st ++ [hotel])))
  ∧ (Exists (λ f, uploadImage sv f = None) files →
     post_add_hotel sv body files now freshId st
     = (inr (SendMessage 500 "Something went wrong"), st)).
Proof.
  split.
  - intros urls uid Hurls Hcast hotel.
    split; [by apply uploadImages_Forall2|].
    split; [symmetry; by eapply Forall2_length|].
    split; [reflexivity|]. split; [reflexivity|].
    intros Hok Hfresh.
    unfold post_add_hotel, tryCatch, mbind, M_bind, bind.
    rewrite (uploadImages_Forall2 sv files urls st Hurls); simpl.
    unfold saveNew, new_Hotel. rewrite castUpdateId_newHotel, Hcast; simpl.
    fold hotel. rewrite Hok; simpl. by rewrite bool_decide_eq_false_2.
  - intros Hfail.
    unfold post_add_hotel, tryCatch, mbind, M_bind, bind.
    by rewrite (uploadImages_failure sv files st Hfail).
Qed.

Lemma C7_witness :
  post_add_hotel demo (listing hexKey) [png "a"] 3000 freshKey [seaView]
  = (inr (SendHotel 201 hillTop), [seaView] ++ [hillTop])
  ∧ imageUrls hillTop = ["https://media.example/data:image/png;base64,YQ=="]
  ∧ lastUpdated hillTop = Some 3000
  ∧ post_add_hotel demo (listing hexKey) [png "a"; pdf "b"; png "c"] 3000
      freshKey [seaView]
    = (inr (SendMessage 500 "Something went wrong"), [seaView]).
Proof.
  destruct (C7_post_add_hotel_uploads_then_persists demo (listing hexKey)
              [png "a"] 3000 freshKey [seaView]) as [Hok _].
  destruct (Hok ["https://media.example/data:image/png;base64,YQ=="] None)
    as (_ & _ & Himages & Hstamp & Hsaved).
  - repeat constructor.
  - reflexivity.
  - split; [|split; [exact Himages|split; [exact Hstamp|]]].
    + apply Hsaved; [reflexivity|].
      vm_compute. intros H. inversion H as [|? ? ? H']. inversion H'.
    + apply (C7_post_add_hotel_uploads_then_persists demo (listing hexKey)
               [png "a"; pdf "b"; png "c"] 3000 freshKey [seaView]).
      apply Exists_cons_tl, Exists_cons_hd. reflexivity.
Defined.

(** ** Creation, then resolution *)

(** C4 (amended).  The claim as stated fails: the lookup by business key
    returns the first record of the owner that carries the key, and nothing
    keeps two records from carrying the same one.  What holds: for every
    record R returned by [POST /add-hotel] with owner u, [GET /:id] scoped
    to u returns R for R's primary key; and it returns R for R's business
    key when that key is well-formed as a primary key and no record of u
    stored before R has it as its primary key or as its business key.
    (A business key that is malformed as a primary key is left out.) *)
Theorem C4_create_then_resolve
    sv body files now freshId (st : Store) R st1 u :
  post_add_hotel sv body files now freshId st
  = (inr (SendHotel 201 R), st1) →
  castObjectId sv (_id R) = Some (_id R) →
  userId R = Some u →
  get_by_id sv (_id R) u st1 = (inr (SendHotel 200 R), st1)
  ∧ ∀ k hex,
      hotelId R = Some k →
      castObjectId sv k = Some hex →
      (∀ r, r ∈ st → userId r = Some u → _id r ≠ hex ∧ hotelId r ≠ Some k) →
      get_by_id sv k u st1 = (inr (SendHotel 200 R), st1).
Proof.
  intros Hadd HcR Hu.
  apply post_add_hotel_inv in Hadd
    as (urls & uid & _ & _ & _ & -> & _ & Hnew).
  split.
  - rewrite (get_by_id_wellformed sv _ (_id R)) by done.
    rewrite (list_find_snoc _ st R); [done| |by apply matches_primaryFilter].
    apply list_find_None_all.
    intros r Hr [Hid _]%matches_primaryFilter.
    apply Hnew. rewrite <- Hid. by apply list_elem_of_fmap_2.
  - intros k hex Hk Hck Hst.
    rewrite (get_by_id_wellformed sv k hex) by done.
    assert (list_find (λ h, matches (primaryFilter hex u) h) st = None)
      as H1.
    { apply list_find_None_all.
      intros r Hr [Hid Hur]%matches_primaryFilter.
      by destruct (Hst r Hr Hur). }
    assert (list_find (λ h, matches (businessFilter k u) h) st = None) as H2.
    { apply list_find_None_all.
      intros r Hr [Hid Hur]%matches_businessFilter.
      by destruct (Hst r Hr Hur). }
    destruct (decide (_id R = hex)) as [Heq|Hne].
    + rewrite (list_find_snoc _ st R);
        [done|done|by apply matches_primaryFilter].
    + rewrite (list_find_snoc_None _ st R); [|done|].
      * rewrite (list_find_snoc _ st R);
          [done|done|by apply matches_businessFilter].
      * by intros [? _]%matches_primaryFilter.
Qed.

Lemma C4_witness :
  get_by_id demo (_id hillTop) "u1" ([seaView] ++ [hillTop])
  = (inr (SendHotel 200 hillTop), [seaView] ++ [hillTop])
  ∧ get_by_id demo hexKey "u1" ([seaView] ++ [hillTop])
    = (inr (SendHotel 200 hillTop), [seaView] ++ [hillTop]).
Proof.
  destruct (C4_create_then_resolve demo (listing hexKey) [png "a"] 3000
              freshKey [seaView] hillTop ([seaView] ++ [hillTop]) "u1")
    as [Hprimary Hbusiness].
  - reflexivity.
  - reflexivity.
  - reflexivity.
  - split; [exact Hprimary|]. apply (Hbusiness hexKey hexKey).
    + reflexivity.
    + reflexivity.
    + intros r Hr%list_elem_of_singleton _. subst r.
      split; vm_compute; congruence.
Defined.

(** C4, the claim as stated, refuted: the owner already has a hotel with
    the business key of the new record; the lookup by that key returns the
    older hotel, not the record just created. *)
Lemma C4_counterexample :
  ∃ R st1,
    post_add_hotel demo (listing hexKey) [png "a"] 3000 freshKey [older]
    = (inr (SendHotel 201 R), st1)
    ∧ userId R = Some "u1"
    ∧ hotelId R = Some hexKey
    ∧ castObjectId demo hexKey = Some hexKey
    ∧ get_by_id demo hexKey "u1" st1 = (inr (SendHotel 200 older), st1)
    ∧ older ≠ R.
Proof.
  eexists _, _. split; [vm_compute; reflexivity|].
  repeat split; try (vm_compute; congruence).
Qed.

(** ** [POST /changePrice] *)

Section ChangePrice.
Context (sv : Services).

(** The only write of the handler is the [findOneAndUpdate] on the first
    record whose [userId] is the identifier of the body; the later
    [save()] of the unmodified document writes nothing. *)
Lemma post_changePrice_store id newPrice st :
  (post_changePrice sv id newPrice st).2
  = match list_find (λ h, matches (ownerFilter id) h) st with
    | Some (i, h) => <[i:=merge h (pricePatch newPrice)]> st
    | None => st
    end.
Proof.
  unfold post_changePrice, tryCatch, mbind, M_bind, bind, findOneAndUpdate,
    saveUnmodified; simpl.
  destruct (list_find _ st) as [[i h]|]; simpl; [|done].
  by destruct (schemaOk sv h).
Qed.

(** No record gets a new [lastUpdated]: the general form of the
    evaluation in C8. *)
Lemma post_changePrice_lastUpdated id newPrice st :
  lastUpdated <$> (post_changePrice sv id newPrice st).2
  = lastUpdated <$> st.
Proof.
  rewrite post_changePrice_store.
  destruct (list_find _ st) as [[i h]|] eqn:Hfind; [|done].
  apply list_find_lookup in Hfind.
  rewrite list_fmap_insert; simpl.
  apply list_insert_id. by rewrite list_lookup_fmap, Hfind.
Qed.
End ChangePrice.

(** C10.  [POST /changePrice] picks its record by comparing the supplied
    identifier with [userId]: a stored record whose [userId] is not the
    identifier is left exactly as it was (its price included), whatever its
    primary key and business key; the first record whose [userId] is the
    identifier gets the new price. *)
Theorem C10_changePrice_selects_by_userId sv id newPrice (st : Store) :
  (∀ (i : nat) r,
     st !! i = Some r → userId r ≠ Some id →
     (post_changePrice sv id newPrice st).2 !! i = Some r)
  ∧ (∀ (i : nat) r,
       st !! i = Some r → userId r = Some id →
       (∀ (j : nat) r', (j < i)%nat → st !! j = Some r' →
                        userId r' ≠ Some id) →
       (post_changePrice sv id newPrice st).2 !! i
       = Some (merge r (pricePatch newPrice))
       ∧ pricePerNight (merge r (pricePatch newPrice))
         = pick newPrice (pricePerNight r)).
Proof.
  rewrite post_changePrice_store. split.
  - intros i r Hi Hr.
    destruct (list_find _ st) as [[k h]|] eqn:Hfind; [|done].
    apply list_find_Some in Hfind as (Hk & Hh%matches_ownerFilter & _).
    rewrite list_lookup_insert_ne; [done|]. intros ->. congruence.
  - intros i r Hi Hr Hfirst.
    assert (list_find (λ h, matches (ownerFilter id) h) st = Some (i, r))
      as ->.
    { apply list_find_Some. split; [done|].
      split; [by apply matches_ownerFilter|].
      intros j r' Hj Hlt Hm%matches_ownerFilter. by eapply Hfirst. }
    split; [|done].
    apply list_lookup_insert_eq. by eapply lookup_lt_Some.
Qed.

Lemma C10_witness :
  (post_changePrice demo "h1" (Some 120) [seaView]).2 !! 0%nat = Some seaView
  ∧ (post_changePrice demo "64b7f0c2a1d3e4f5a6b7c8d9" (Some 120) [seaView]).2
      !! 0%nat = Some seaView
  ∧ (post_changePrice demo "u1" (Some 120) [seaView]).2 !! 0%nat
    = Some seaViewRepriced.
Proof.
  destruct (C10_changePrice_selects_by_userId demo "h1" (Some 120) [seaView])
    as [Hbusiness _].
  destruct (C10_changePrice_selects_by_userId demo "64b7f0c2a1d3e4f5a6b7c8d9"
              (Some 120) [seaView]) as [Hprimary _].
  destruct (C10_changePrice_selects_by_userId demo "u1" (Some 120) [seaView])
    as [_ Howner].
  split; [|split].
  - apply Hbusiness; [reflexivity|]. simpl. congruence.
  - apply Hprimary; [reflexivity|]. simpl. congruence.
  - apply (Howner 0%nat seaView); [reflexivity|reflexivity|].
    intros j r' Hlt. inversion Hlt.
Defined.

(** ** [PUT /update-hotel/:hotelId] (Policy B) *)

Section PolicyB.
Context (sv : Services).

(** The lookup: by primary key when the identifier casts, by business key
    when the cast throws; a primary-key lookup that finds nothing is not
    followed by another one. *)
Lemma update_hotel_find_spec id st :
  update_hotel_find sv id st
  = (inr (snd <$> list_find
            (λ h, matches (update_hotel_filter sv id) h) st), st).
Proof.
  unfold update_hotel_find, tryCatch, findOne, update_hotel_filter.
  rewrite castFilter_byField_id. by destruct (castObjectId sv id).
Qed.

Lemma update_hotel_find_Some id st e st0 :
  update_hotel_find sv id st = (inr (Some e), st0) →
  st0 = st
  ∧ ∃ i, list_find (λ h, matches (update_hotel_filter sv id) h) st
         = Some (i, e).
Proof.
  rewrite update_hotel_find_spec.
  destruct (list_find _ st) as [[i h]|]; simpl; [|discriminate].
  intros [= -> <-]. eauto.
Qed.

Lemma imageUrls_merge_updatedHotel h e body urls now :
  imageUrls (merge h (updatedHotel e body urls now)) = urls.
Proof. reflexivity. Qed.

Lemma lastUpdated_merge_updatedHotel h e body urls now :
  lastUpdated (merge h (updatedHotel e body urls now)) = Some now.
Proof. reflexivity. Qed.

(** After the write, a record is as it was or carries the image list
    of the update. *)
Lemma findOneAndUpdate_updatedHotel_lookup q e body urls now new st
    (i : nat) h :
  st !! i = Some h →
  ∃ h',
    (findOneAndUpdate sv q (updatedHotel e body urls now) new st).2 !! i
    = Some h'
    ∧ (h' = h ∨ imageUrls h' = urls).
Proof.
  intros Hi. unfold findOneAndUpdate.
  destruct (castFilter sv q) as [q'|]; [|by eauto].
  destruct (castUpdateId sv _) as [uid|]; [|by eauto].
  destruct (list_find _ st) as [[j d]|] eqn:Hfind; [|by eauto].
  destruct (applyUpdate d uid _) as [d'|] eqn:Happ; [|by eauto]; simpl.
  apply applyUpdate_Some in Happ as ->.
  destruct (decide (j = i)) as [->|Hne].
  - eexists. rewrite list_lookup_insert_eq by eauto using lookup_lt_Some.
    split; [done|]. by right.
  - exists h. rewrite list_lookup_insert_ne by done. auto.
Qed.

(** The record sent back carries the image list of the update. *)
Lemma findOneAndUpdate_updatedHotel_sent q e body urls now st hotel st' :
  findOneAndUpdate sv q (updatedHotel e body urls now) true st
  = (inr (Some hotel), st') →
  imageUrls hotel = urls ∧ lastUpdated hotel = Some now.
Proof.
  unfold findOneAndUpdate.
  destruct (castFilter sv q) as [q'|]; [|discriminate].
  destruct (castUpdateId sv _) as [uid|]; [|discriminate].
  destruct (list_find _ st) as [[j d]|]; [|discriminate].
  destruct (applyUpdate d uid _) as [d'|] eqn:Happ; [|discriminate].
  apply applyUpdate_Some in Happ as ->. by intros [= <- <-].
Qed.

(** Writing back the image list a record already has changes no image
    list of the store. *)
Lemma findOneAndUpdate_imageUrls_frame q q' e body now new st i :
  castFilter sv q = Some q' →
  list_find (λ h, matches q' h) st = Some (i, e) →
  imageUrls <$>
    (findOneAndUpdate sv q (updatedHotel e body (imageUrls e) now) new
       st).2
  = imageUrls <$> st.
Proof.
  intros Hq Hfind. unfold findOneAndUpdate. rewrite Hq.
  destruct (castUpdateId sv _) as [uid|]; [|done].
  rewrite Hfind.
  destruct (applyUpdate e uid _) as [h'|] eqn:Happ; [|done]; simpl.
  apply applyUpdate_Some in Happ as ->.
  rewrite list_fmap_insert, imageUrls_merge_updatedHotel.
  apply list_insert_id. rewrite list_lookup_fmap.
  by rewrite (list_find_lookup _ _ _ _ Hfind).
Qed.

(** The handler run in one piece is the interleaved one on a collection
    that nobody else touches. *)
Lemma put_update_hotel_sequential id body files now st :
  put_update_hotel sv id body files now st
  = put_update_hotel_interleaved sv id body files now st st.
Proof.
  unfold put_update_hotel, put_update_hotel_interleaved.
  unfold tryCatch at 1. unfold mbind, M_bind, bind at 1.
  rewrite update_hotel_find_spec.
  by destruct (list_find _ st) as [[i e]|].
Qed.

(** Once the existing hotel is in hand and the uploads are through, the
    answer and the collection are those of the one [findOneAndUpdate]
    keyed on [queryField]. *)
Lemma put_update_hotel_interleaved_spec id body files now st st' e urls :
  update_hotel_find sv id st = (inr (Some e), st) →
  mapM (uploadImage sv) files = Some urls →
  put_update_hotel_interleaved sv id body files now st st'
  = match findOneAndUpdate sv (byField (queryField e id) id)
            (updatedHotel e body (imageUrls e ++ urls) now) true st' with
    | (inl _, s) => (inr (SendMessage 500 "Something went wrong"), s)
    | (inr None, s) => (inr (SendMessage 404 "Hotel not found"), s)
    | (inr (Some hotel), s) => (inr (SendHotel 200 hotel), s)
    end.
Proof.
  intros Hfind Hup. unfold put_update_hotel_interleaved. rewrite Hfind.
  unfold update_hotel_persist, tryCatch, mbind, M_bind, bind.
  case_bool_decide as Hlen.
  - unfold uploadImages. rewrite Hup; simpl.
    by destruct (findOneAndUpdate sv _ _ true st') as [[?|[?|]] ?].
  - destruct files; [|simpl in Hlen; lia].
    simpl in Hup. injection Hup as <-. rewrite app_nil_r. simpl.
    by destruct (findOneAndUpdate sv _ _ true st') as [[?|[?|]] ?].
Qed.

(** For an identifier that does not cast, or that is the string form of
    the ObjectId it casts to, the key chosen for the write is the key of
    the lookup, unless the choice falls on [_id] with an identifier that
    does not cast. *)
Lemma queryField_refinds id (st : Store) i e :
  castObjectId sv id = None ∨ castObjectId sv id = Some id →
  list_find (λ h, matches (update_hotel_filter sv id) h) st = Some (i, e) →
  castFilter sv (byField (queryField e id) id) = None
  ∨ castFilter sv (byField (queryField e id) id)
    = Some (update_hotel_filter sv id).
Proof.
  unfold update_hotel_filter, queryField. intros [Hc|Hc] Hfind.
  - rewrite Hc in *. case_bool_decide.
    + left. by rewrite castFilter_byField_id, Hc.
    + by right.
  - rewrite Hc in *. right.
    apply list_find_Some in Hfind as (_ & Hm%matches_byField_id & _).
    rewrite bool_decide_eq_true_2 by done.
    by rewrite castFilter_byField_id, Hc.
Qed.
End PolicyB.

(** [PUT /update-hotel/:hotelId] with no image file, whatever the body
    holds, an image list included, and whatever the outcome: the record the
    call resolves has after the call the [imageUrls] it had before; the
    record sent back on success has the [imageUrls] of the resolved record;
    and for an identifier that does not cast to an ObjectId, or that is the
    string form of the one it casts to, every record of the collection has
    after the call the [imageUrls] it had before. *)
Lemma update_hotel_without_files_frame
    sv id body now (st : Store) :
  (∀ e (i : nat),
     update_hotel_find sv id st = (inr (Some e), st) →
     st !! i = Some e →
     ∃ h', (put_update_hotel sv id body [] now st).2 !! i = Some h'
           ∧ imageUrls h' = imageUrls e)
  ∧ (∀ hotel st',
       put_update_hotel sv id body [] now st
       = (inr (SendHotel 200 hotel), st') →
       ∃ e, update_hotel_find sv id st = (inr (Some e), st)
            ∧ imageUrls hotel = imageUrls e)
  ∧ (castObjectId sv id = None ∨ castObjectId sv id = Some id →
     imageUrls <$> (put_update_hotel sv id body [] now st).2
     = imageUrls <$> st).
Proof.
  rewrite put_update_hotel_sequential.
  destruct (update_hotel_find sv id st) as [[err|[e|]] s0] eqn:Hfind.
  - rewrite update_hotel_find_spec in Hfind. discriminate.
  - pose proof Hfind as [-> [k Hk]]%update_hotel_find_Some.
    rewrite (put_update_hotel_interleaved_spec sv id body [] now st st e [])
      by done.
    rewrite app_nil_r.
    split; [|split].
    + intros e' i [= <-] Hi.
      destruct (findOneAndUpdate_updatedHotel_lookup sv
                  (byField (queryField e id) id) e body (imageUrls e) now
                  true st i e Hi) as (h' & Hh' & Himg).
      exists h'. split; [|by destruct Himg as [->|]].
      by destruct (findOneAndUpdate sv _ _ true st) as [[?|[?|]] ?].
    + intros hotel st'.
      destruct (findOneAndUpdate sv _ _ true st) as [[?|[sent|]] s] eqn:Hw;
        try discriminate.
      intros [= <- <-]. exists e. split; [done|].
      by apply findOneAndUpdate_updatedHotel_sent in Hw as [? _].
    + intros Hcanon.
      destruct (queryField_refinds sv id st k e Hcanon Hk) as [Hq|Hq].
      * unfold findOneAndUpdate. by rewrite Hq.
      * pose proof (findOneAndUpdate_imageUrls_frame sv _ _ e body now true
                      st k Hq Hk) as Hframe.
        by destruct (findOneAndUpdate sv _ _ true st) as [[?|[?|]] ?].
  - unfold put_update_hotel_interleaved. rewrite Hfind.
    apply (f_equal snd) in Hfind. rewrite update_hotel_find_snd in Hfind.
    simpl in Hfind. subst s0.
    split; [|split]; [discriminate|discriminate|done].
Qed.

Lemma update_hotel_without_files_frame_h1 :
  (∃ h', (put_update_hotel demo "h1" renameSwapPatch [] 2000 [seaView]).2
           !! 0%nat = Some h'
         ∧ imageUrls h' = imageUrls seaView)
  ∧ (∃ e, update_hotel_find demo "h1" [seaView] = (inr (Some e), [seaView])
          ∧ imageUrls seaViewRenamed = imageUrls e)
  ∧ imageUrls <$> (put_update_hotel demo "h1" renameSwapPatch [] 2000
                     [seaView]).2 = imageUrls <$> [seaView].
Proof.
  destruct (update_hotel_without_files_frame demo "h1"
              renameSwapPatch 2000 [seaView])
    as (Hresolved & Hsent & Hall).
  split; [|split].
  - apply (Hresolved seaView 0%nat); reflexivity.
  - apply (Hsent seaViewRenamed [seaViewRenamed]). reflexivity.
  - apply Hall. left. reflexivity.
Defined.

(** The body's own image list is ignored while its other paths are
    written. *)
Example update_hotel_ignores_body_imageUrls :
  put_update_hotel demo "h1" renameSwapPatch [] 2000 [seaView]
  = (inr (SendHotel 200 seaViewRenamed), [seaViewRenamed])
  ∧ name seaViewRenamed ≠ name seaView
  ∧ imageUrls seaViewRenamed = imageUrls seaView.
Proof. repeat split; vm_compute; congruence. Qed.

(** A [findOneAndUpdate] that finds no row writes nothing. *)
Lemma findOneAndUpdate_None sv q u new st s :
  findOneAndUpdate sv q u new st = (inr None, s) → s = st.
Proof.
  unfold findOneAndUpdate.
  destruct (castFilter sv q) as [q'|]; [|discriminate].
  destruct (castUpdateId sv u) as [uid|]; [|discriminate].
  destruct (list_find _ st) as [[i h]|]; [|congruence].
  destruct (applyUpdate h uid u); discriminate.
Qed.

(** [PUT /update-hotel/:hotelId], once the lookup has returned the
    existing hotel (the stored primary keys being ObjectIds in their string
    form) and the uploads are through: the write is keyed on [_id] exactly
    when the primary key of the existing hotel is the supplied identifier,
    else on [hotelId]; for an identifier that is the string form of an
    ObjectId this is [_id], the key on which the lookup returned the
    existing hotel, and for an identifier that does not cast it is
    [hotelId], the key on which the lookup returned it; the answer and the
    collection are those of the one [findOneAndUpdate] on that key; and
    when it finds no row in the collection as it is at the time of the
    write, the answer is the 404 message and the collection is left as it
    is. *)
Lemma update_hotel_writes_by_queryField
    sv id body files now (st st' : Store) e urls :
  Forall (λ r, castObjectId sv (_id r) = Some (_id r)) st →
  update_hotel_find sv id st = (inr (Some e), st) →
  mapM (uploadImage sv) files = Some urls →
  (queryField e id = Q_id ↔ _id e = id)
  ∧ (castObjectId sv id = Some id →
     queryField e id = Q_id
     ∧ findOne sv (byField Q_id id) st = (inr (Some e), st))
  ∧ (castObjectId sv id = None →
     queryField e id = Q_hotelId
     ∧ findOne sv (byField Q_hotelId id) st = (inr (Some e), st))
  ∧ put_update_hotel_interleaved sv id body files now st st'
    = match findOneAndUpdate sv (byField (queryField e id) id)
              (updatedHotel e body (imageUrls e ++ urls) now) true st' with
      | (inl _, s) => (inr (SendMessage 500 "Something went wrong"), s)
      | (inr None, s) => (inr (SendMessage 404 "Hotel not found"), s)
      | (inr (Some hotel), s) => (inr (SendHotel 200 hotel), s)
      end
  ∧ (∀ s,
       findOneAndUpdate sv (byField (queryField e id) id)
         (updatedHotel e body (imageUrls e ++ urls) now) true st'
       = (inr None, s) →
       put_update_hotel_interleaved sv id body files now st st'
       = (inr (SendMessage 404 "Hotel not found"), st')).
Proof.
  intros Hids Hfind Hup.
  pose proof Hfind as [_ [i Hi]]%update_hotel_find_Some.
  pose proof (list_find_lookup _ _ _ _ Hi) as Hlook.
  pose proof (Forall_lookup_1 _ _ _ _ Hids Hlook) as Hce. simpl in Hce.
  unfold update_hotel_filter in Hi.
  split; [|split; [|split; [|split]]].
  - unfold queryField. case_bool_decide; split; congruence.
  - intros Hc. rewrite Hc in Hi.
    pose proof Hi as (_ & Hm%matches_byField_id & _)%list_find_Some.
    unfold queryField, findOne.
    rewrite bool_decide_eq_true_2 by done.
    rewrite castFilter_byField_id, Hc. simpl in *. by rewrite Hi.
  - intros Hc. rewrite Hc in Hi. unfold queryField, findOne.
    rewrite bool_decide_eq_false_2 by (intros <-; congruence).
    rewrite castFilter_byField_hotelId. simpl in *. by rewrite Hi.
  - by apply put_update_hotel_interleaved_spec.
  - intros s Hnone.
    rewrite (put_update_hotel_interleaved_spec sv id body files now st st' e
               urls) by done.
    rewrite Hnone. by apply findOneAndUpdate_None in Hnone as ->.
Qed.

Lemma update_hotel_writes_by_queryField_h1 :
  queryField seaView "h1" = Q_hotelId
  ∧ findOne demo (byField Q_hotelId "h1") [seaView]
    = (inr (Some seaView), [seaView])
  ∧ queryField seaView (_id seaView) = Q_id
  ∧ put_update_hotel_interleaved demo "h1" renamePatch [] 2000 [seaView] []
    = (inr (SendMessage 404 "Hotel not found"), []).
Proof.
  destruct (update_hotel_writes_by_queryField demo "h1" renamePatch []
              2000 [seaView] [] seaView [])
    as (_ & _ & Hbusiness & _ & Hnone).
  - repeat constructor.
  - reflexivity.
  - reflexivity.
  - destruct (update_hotel_writes_by_queryField demo (_id seaView)
                renamePatch [] 2000 [seaView] [] seaView [])
      as (_ & Hprimary & _).
    + repeat constructor.
    + reflexivity.
    + reflexivity.
    + destruct Hbusiness as [Hq Hlookup]; [reflexivity|].
      destruct Hprimary as [Hq' _]; [reflexivity|].
      split; [exact Hq|]. split; [exact Hlookup|]. split; [exact Hq'|].
      by apply (Hnone []).
Defined.

(** C6 (the code departs from the claim).  The claim: the write of
    [PUT /update-hotel/:hotelId] is keyed on the identifier that matched in
    the lookup, the primary key when the primary key matched; the source
    says the same above the write ("Update by the same field we found it
    with").  The key is chosen by comparing the string form of the stored
    [_id] with the identifier as the client sent it: for an identifier that
    casts to the ObjectId of [seaView] without being its string form (here
    its upper-case spelling) the lookup returns [seaView] on [_id], the
    write is keyed on [hotelId], finds no row and the route answers 404
    while the hotel is stored; the same request with the string form of the
    key is answered 200. *)
Theorem C6_update_hotel_upper_case_key_writes_by_hotelId :
  update_hotel_find demo seaViewKeyUpper [seaView]
  = (inr (Some seaView), [seaView])
  ∧ findOne demo (byField Q_id seaViewKeyUpper) [seaView]
    = (inr (Some seaView), [seaView])
  ∧ findOne demo (byField Q_hotelId seaViewKeyUpper) [seaView]
    = (inr None, [seaView])
  ∧ queryField seaView seaViewKeyUpper = Q_hotelId
  ∧ put_update_hotel demo seaViewKeyUpper renamePatch [] 2000 [seaView]
    = (inr (SendMessage 404 "Hotel not found"), [seaView])
  ∧ put_update_hotel demo (_id seaView) renamePatch [] 2000 [seaView]
    = (inr (SendHotel 200 seaViewRenamed), [seaViewRenamed]).
Proof. repeat split; vm_compute; reflexivity. Qed.

(** C5 (the code departs from the claim).  The claim: a call of
    [PUT /update-hotel/:hotelId] without image files leaves the [imageUrls]
    of every record as they were.  The write is keyed by a comparison of
    strings, the stored [_id] in its string form against the identifier as
    the client sent it: with the upper-case spelling of the primary key
    of [seaView] as identifier the lookup returns [seaView] and the write
    goes to the record whose [hotelId] is that spelling, [annex]; with a
    body that names the primary key of [annex] the store accepts the write,
    the route answers 200, and [annex] has the [imageUrls] of [seaView] in
    place of its own, although the request carried no file. *)
Theorem C5_update_hotel_without_files_overwrites_imageUrls :
  update_hotel_find demo seaViewKeyUpper [seaView; annex]
  = (inr (Some seaView), [seaView; annex])
  ∧ queryField seaView seaViewKeyUpper = Q_hotelId
  ∧ put_update_hotel demo seaViewKeyUpper renameAnnexPatch [] 2000
      [seaView; annex]
    = (inr (SendHotel 200 annexOverwritten), [seaView; annexOverwritten])
  ∧ imageUrls annexOverwritten = imageUrls seaView
  ∧ imageUrls annexOverwritten ≠ imageUrls annex.
Proof. repeat split; vm_compute; congruence. Qed.

(** ** [lastUpdated] on the three routes that set it *)

Lemma lastUpdated_merge_stamp h body now :
  lastUpdated (merge h (set_p_lastUpdated now body)) = Some now.
Proof. reflexivity. Qed.

Lemma lastUpdated_construct_newHotel freshId uid body urls now :
  lastUpdated (construct freshId uid (newHotel body urls now)) = Some now.
Proof. reflexivity. Qed.

Lemma lastUpdated_merge_pricePatch h newPrice :
  lastUpdated (merge h (pricePatch newPrice)) = lastUpdated h.
Proof. reflexivity. Qed.

(** ** multer on the routes *)

Lemma uploadArrayFrom_accepts maxCount seen files :
  Forall (λ f, ¬ tooLarge f) files →
  match maxCount with
  | Some n => (seen + length files ≤ n)%nat
  | None => True
  end →
  uploadArrayFrom maxCount seen files = None.
Proof.
  intros Hsmall. revert seen.
  induction Hsmall as [|f files Hf _ IH]; intros seen Hn; [done|].
  unfold tooLarge in Hf. simpl in *.
  rewrite (bool_decide_eq_false_2 (fileSize ≤ _)%N) by exact Hf.
  destruct maxCount as [n|].
  - rewrite bool_decide_eq_false_2 by lia. apply IH. lia.
  - by apply IH.
Qed.

Lemma uploadArrayFrom_too_many n seen files :
  (seen ≤ n)%nat → (n < seen + length files)%nat →
  is_Some (uploadArrayFrom (Some n) seen files).
Proof.
  revert seen. induction files as [|f files IH]; intros seen Hle Hlt.
  - simpl in Hlt. lia.
  - simpl in *. case_bool_decide; [done|].
    case_bool_decide; [done|]. apply IH; lia.
Qed.

Lemma uploadArrayFrom_too_large maxCount seen files :
  Exists tooLarge files → is_Some (uploadArrayFrom maxCount seen files).
Proof.
  intros Hbig. revert seen.
  induction Hbig as [f files Hf|f files _ IH]; intros seen; simpl.
  - destruct maxCount as [n|]; [case_bool_decide; [done|]|];
      unfold tooLarge in Hf; by rewrite bool_decide_eq_true_2 by exact Hf.
  - destruct maxCount as [n|]; [case_bool_decide; [done|]|];
      (case_bool_decide; [done|apply IH]).
Qed.

(** The refusal is that of the first file refused: within the count, a
    file that reaches the size limit after files that do not; and the file
    after the last one allowed, whatever its size. *)
Lemma uploadArrayFrom_size_first n seen files f rest :
  Forall (λ f, ¬ tooLarge f) files → (seen + length files < n)%nat →
  tooLarge f →
  uploadArrayFrom (Some n) seen (files ++ f :: rest) = Some MulterFileSize.
Proof.
  intros Hsmall. revert seen.
  induction Hsmall as [|g files Hg _ IH]; intros seen Hn Hf;
    unfold tooLarge in *; simpl in *.
  - rewrite bool_decide_eq_false_2 by lia.
    by rewrite bool_decide_eq_true_2 by exact Hf.
  - rewrite bool_decide_eq_false_2 by lia.
    rewrite (bool_decide_eq_false_2 (fileSize ≤ _)%N) by exact Hg.
    apply IH; [lia|done].
Qed.

Lemma uploadArrayFrom_count_first n seen files f rest :
  Forall (λ f, ¬ tooLarge f) files → (seen + length files = n)%nat →
  uploadArrayFrom (Some n) seen (files ++ f :: rest)
  = Some MulterUnexpectedFile.
Proof.
  intros Hsmall. revert seen.
  induction Hsmall as [|g files Hg _ IH]; intros seen Hn;
    unfold tooLarge in *; simpl in *.
  - by rewrite bool_decide_eq_true_2 by lia.
  - rewrite bool_decide_eq_false_2 by lia.
    rewrite (bool_decide_eq_false_2 (fileSize ≤ _)%N) by exact Hg.
    apply IH. lia.
Qed.

Lemma uploadArray_size_first n files f rest :
  Forall (λ f, ¬ tooLarge f) files → (length files < n)%nat → tooLarge f →
  uploadArray (Some n) (files ++ f :: rest) = inl MulterFileSize.
Proof.
  intros Hsmall Hn Hf. unfold uploadArray.
  by rewrite (uploadArrayFrom_size_first n 0 files f rest).
Qed.

Lemma uploadArray_count_first n files f rest :
  Forall (λ f, ¬ tooLarge f) files → length files = n →
  uploadArray (Some n) (files ++ f :: rest) = inl MulterUnexpectedFile.
Proof.
  intros Hsmall Hn. unfold uploadArray.
  by rewrite (uploadArrayFrom_count_first n 0 files f rest).
Qed.

Lemma uploadArray_over_limit n files :
  (n < length files)%nat → ∃ e, uploadArray (Some n) files = inl e.
Proof.
  intros Hn. unfold uploadArray.
  destruct (uploadArrayFrom_too_many n 0 files) as [e ->]; [lia|done|eauto].
Qed.

Lemma uploadArray_too_large maxCount files :
  Exists tooLarge files → ∃ e, uploadArray maxCount files = inl e.
Proof.
  intros Hbig. unfold uploadArray.
  destruct (uploadArrayFrom_too_large maxCount 0 files Hbig) as [e ->]. eauto.
Qed.

Lemma uploadArray_within n files :
  (length files ≤ n)%nat → Forall (λ f, ¬ tooLarge f) files →
  uploadArray (Some n) files = inr files.
Proof.
  intros Hn Hsmall. unfold uploadArray.
  by rewrite uploadArrayFrom_accepts.
Qed.

Lemma uploadArray_no_limit files :
  Forall (λ f, ¬ tooLarge f) files → uploadArray None files = inr files.
Proof.
  intros Hsmall. unfold uploadArray. by rewrite uploadArrayFrom_accepts.
Qed.

(** More than 6 files never reach the handlers of [POST /add-hotel] and
    [PUT /update-hotel/:hotelId]. *)
Lemma route_six_file_limit sv id body files now freshId st :
  (6 < length files)%nat →
  (∃ e, route_post_add_hotel sv body files now freshId st = (inl e, st))
  ∧ (∃ e, route_put_update_hotel sv id body files now st = (inl e, st)).
Proof.
  intros [e He]%uploadArray_over_limit.
  unfold route_post_add_hotel, route_put_update_hotel, withFiles.
  rewrite He. split; by exists e.
Qed.

(** [PUT /:hotelId] hands any number of files of admissible size to its
    handler. *)
Lemma route_put_hotelId_no_limit sv id u body files now st :
  Forall (λ f, ¬ tooLarge f) files →
  route_put_hotelId sv id u body files now st
  = put_hotelId sv id u body files now st.
Proof.
  intros H%uploadArray_no_limit. unfold route_put_hotelId, withFiles.
  by rewrite H.
Qed.

(** * Further properties of the routes *)

(** Settles a decidable statement about concrete data by evaluation. *)
Ltac by_compute :=
  match goal with
  | |- ?P => refine (@bool_decide_unpack P _ _); vm_compute; exact I
  end.

(** ** [GET /:id] *)

(** X1.  Whatever [GET /:id] sends with a hotel, it sends with status 200,
    after writing nothing, a record of the collection whose [userId] is the
    requester and which carries the identifier as its primary key (in the
    form the driver casts it to) or as its business key: the route never
    hands out the record of another owner. *)
Theorem X1_get_by_id_owner_scoped sv id u (st : Store) status h st' :
  get_by_id sv id u st = (inr (SendHotel status h), st') →
  status = 200%nat ∧ st' = st ∧ h ∈ st ∧ userId h = Some u
  ∧ (castObjectId sv id = Some (_id h) ∨ hotelId h = Some id).
Proof.
  destruct (castObjectId sv id) as [hex|] eqn:Hc.
  - rewrite (get_by_id_wellformed sv id hex) by done.
    destruct (list_find _ st) as [[i r]|] eqn:H1.
    + intros [= <- <- <-].
      apply list_find_Some in H1 as (Hi & [Hid Hu]%matches_primaryFilter & _).
      split_and!; [done|done|by eapply list_elem_of_lookup_2|done|].
      left. by rewrite Hid.
    + destruct (list_find (λ h, matches (businessFilter id u) h) st)
        as [[i r]|] eqn:H2; [|discriminate].
      intros [= <- <- <-].
      apply list_find_Some in H2
        as (Hi & [Hid Hu]%matches_businessFilter & _).
      split_and!; [done|done|by eapply list_elem_of_lookup_2|done|by right].
  - rewrite get_by_id_malformed by done. discriminate.
Qed.

Lemma X1_witness :
  200%nat = 200%nat ∧ [cityInn; seaView] = [cityInn; seaView]
  ∧ seaView ∈ [cityInn; seaView] ∧ userId seaView = Some "u1"
  ∧ (castObjectId demo (_id seaView) = Some (_id seaView)
     ∨ hotelId seaView = Some (_id seaView)).
Proof.
  apply (X1_get_by_id_owner_scoped demo (_id seaView) "u1"
           [cityInn; seaView] 200%nat seaView [cityInn; seaView]).
  reflexivity.
Defined.

(** X2.  [GET /:id] on an identifier that casts to an ObjectId: the answer
    is the 404 message exactly when no record of the requester has the
    identifier as primary key or as business key; and when a record of the
    requester has it as primary key, the record sent has that primary key,
    whatever records carry the identifier as business key (the primary key
    takes precedence). *)
Theorem X2_get_by_id_not_found_and_precedence sv id hex u (st : Store) :
  castObjectId sv id = Some hex →
  (get_by_id sv id u st = (inr (SendMessage 404 "Hotel not found"), st)
   ↔ ∀ r, r ∈ st → userId r = Some u → _id r ≠ hex ∧ hotelId r ≠ Some id)
  ∧ (∀ r, r ∈ st → userId r = Some u → _id r = hex →
     ∃ r', get_by_id sv id u st = (inr (SendHotel 200 r'), st)
           ∧ _id r' = hex ∧ userId r' = Some u).
Proof.
  intros Hc. rewrite (get_by_id_wellformed sv id hex) by done. split.
  - split.
    + destruct (list_find (λ h, matches (primaryFilter hex u) h) st)
        as [[i r1]|] eqn:H1; [discriminate|].
      destruct (list_find (λ h, matches (businessFilter id u) h) st)
        as [[i r2]|] eqn:H2; [discriminate|].
      intros _ r Hr Hu.
      rewrite list_find_None, Forall_forall in H1, H2.
      split.
      * intros Hid. apply (H1 r Hr). by apply matches_primaryFilter.
      * intros Hid. apply (H2 r Hr). by apply matches_businessFilter.
    + intros Hnone.
      rewrite (list_find_None_all (λ h, matches (primaryFilter hex u) h)).
      * rewrite (list_find_None_all (λ h, matches (businessFilter id u) h));
          [done|].
        intros r Hr [Hid Hu]%matches_businessFilter.
        by destruct (Hnone r Hr Hu).
      * intros r Hr [Hid Hu]%matches_primaryFilter.
        by destruct (Hnone r Hr Hu).
  - intros r Hr Hu Hid.
    destruct (list_find_elem_of (λ h, matches (primaryFilter hex u) h) st r)
      as [[i r'] H1]; [done|by apply matches_primaryFilter|].
    rewrite H1. exists r'. split; [done|].
    by apply list_find_Some in H1 as (_ & ?%matches_primaryFilter & _).
Qed.

Lemma X2_witness :
  (get_by_id demo unusedKey "u1" [cityInn; seaView]
   = (inr (SendMessage 404 "Hotel not found"), [cityInn; seaView])
   ↔ ∀ r, r ∈ [cityInn; seaView] → userId r = Some "u1" →
          _id r ≠ unusedKey ∧ hotelId r ≠ Some unusedKey)
  ∧ (∀ r, r ∈ [cityInn; seaView] → userId r = Some "u1" →
     _id r = unusedKey →
     ∃ r', get_by_id demo unusedKey "u1" [cityInn; seaView]
           = (inr (SendHotel 200 r'), [cityInn; seaView])
           ∧ _id r' = unusedKey ∧ userId r' = Some "u1").
Proof.
  apply (X2_get_by_id_not_found_and_precedence demo unusedKey unusedKey "u1"
           [cityInn; seaView]).
  reflexivity.
Defined.

(** ** What the writes do to the collection *)

Lemma ids_insert (st : Store) i h h' :
  st !! i = Some h → _id h' = _id h → _id <$> <[i:=h']> st = _id <$> st.
Proof.
  intros Hi Hid. rewrite list_fmap_insert, Hid.
  apply list_insert_id. by rewrite list_lookup_fmap, Hi.
Qed.

(** The first record with a given primary key, when primary keys are
    unique. *)
Lemma list_find_id_NoDup (st : Store) k h :
  NoDup (_id <$> st) → st !! k = Some h →
  list_find (λ d, _id d = _id h) st = Some (k, h).
Proof.
  intros Hnd Hk. apply list_find_Some. split_and!; [done|done|].
  intros j y Hj Hlt Heq.
  assert (j = k); [|lia].
  apply (NoDup_lookup (_id <$> st) j k (_id h) Hnd);
    rewrite list_lookup_fmap; [by rewrite Hj; simpl; rewrite Heq|].
  by rewrite Hk.
Qed.

Section Writes.
Context (sv : Services).

(** A [findOneAndUpdate] either leaves the collection as it is and
    returns no record, or replaces the first match of its (cast) filter by
    the merged record. *)
Lemma findOneAndUpdate_inv q u new st r st' :
  findOneAndUpdate sv q u new st = (r, st') →
  (st' = st ∧ ∀ h, r ≠ inr (Some h))
  ∨ ∃ q' i h,
      castFilter sv q = Some q'
      ∧ list_find (λ h, matches q' h) st = Some (i, h)
      ∧ st' = <[i:=merge h u]> st
      ∧ r = inr (Some (if new then merge h u else h)).
Proof.
  unfold findOneAndUpdate.
  destruct (castFilter sv q) as [q'|]; [|intros [= <- <-]; by left].
  destruct (castUpdateId sv u) as [uid|]; [|intros [= <- <-]; by left].
  destruct (list_find _ st) as [[i h]|] eqn:Hfind;
    [|intros [= <- <-]; by left].
  destruct (applyUpdate h uid u) as [h'|] eqn:Happ;
    [|intros [= <- <-]; by left].
  apply applyUpdate_Some in Happ as ->. intros [= <- <-].
  right. by exists q', i, h.
Qed.

Lemma findOneAndUpdate_ids q u new st :
  _id <$> (findOneAndUpdate sv q u new st).2 = _id <$> st.
Proof.
  destruct (findOneAndUpdate sv q u new st) as [r st'] eqn:H.
  apply findOneAndUpdate_inv in H
    as [[-> _]|(q' & i & h & _ & Hfind & -> & _)]; [done|].
  simpl. eapply ids_insert; [by eapply list_find_lookup|done].
Qed.

Lemma saveImageUrls_ids doc st :
  _id <$> (saveImageUrls sv doc st).2 = _id <$> st.
Proof.
  unfold saveImageUrls. destruct (negb (schemaOk sv doc)); [done|].
  destruct (list_find _ st) as [[j d]|] eqn:Hfind; [|done]. simpl.
  eapply ids_insert; [by eapply list_find_lookup|done].
Qed.

(** The first write of [PUT /:hotelId], taken apart: nothing written and
    no record returned, or a record of the requester replaced by its merge
    with the stamped body. *)
Lemma put_hotelId_first_write_inv id u body now st r s1 :
  tryCatch
    (findOneAndUpdate sv (primaryFilter id u) (set_p_lastUpdated now body)
       true)
    (λ _, findOneAndUpdate sv (businessFilter id u)
            (set_p_lastUpdated now body) true) st = (r, s1) →
  (s1 = st ∧ ∀ h, r ≠ inr (Some h))
  ∨ ∃ i h,
      st !! i = Some h ∧ userId h = Some u
      ∧ s1 = <[i:=merge h (set_p_lastUpdated now body)]> st
      ∧ r = inr (Some (merge h (set_p_lastUpdated now body))).
Proof.
  unfold tryCatch.
  destruct (findOneAndUpdate sv (primaryFilter id u) _ true st)
    as [[e|o] s] eqn:H1.
  - apply findOneAndUpdate_inv in H1
      as [[-> _]|(? & ? & ? & _ & _ & _ & [=])].
    intros H2. apply findOneAndUpdate_inv in H2
      as [?|(q' & i & h & Hq & Hfind & -> & ->)]; [by left|].
    rewrite castFilter_businessFilter in Hq. injection Hq as <-.
    apply list_find_Some in Hfind
      as (Hi & [_ Hu]%matches_businessFilter & _).
    right. by exists i, h.
  - intros [= <- <-]. apply findOneAndUpdate_inv in H1
      as [?|(q' & i & h & Hq & Hfind & -> & ->)]; [by left|].
    rewrite castFilter_primaryFilter in Hq.
    destruct (castObjectId sv id) as [hex|]; [|discriminate].
    injection Hq as <-.
    apply list_find_Some in Hfind
      as (Hi & [_ Hu]%matches_primaryFilter & _).
    right. by exists i, h.
Qed.

(** [PUT /:hotelId] on a collection with unique primary keys, taken apart:
    nothing written and no hotel sent; or a record of the requester
    replaced by its merge with the stamped body and the 500 message sent;
    or that record replaced by the final record, which is sent with
    status 201. *)
Lemma put_hotelId_inv id u body files now st R st' :
  NoDup (_id <$> st) →
  put_hotelId sv id u body files now st = (R, st') →
  (st' = st ∧ ∀ s h, R ≠ inr (SendHotel s h))
  ∨ ∃ i h,
      st !! i = Some h ∧ userId h = Some u
      ∧ ((st' = <[i:=merge h (set_p_lastUpdated now body)]> st
          ∧ R = inr (SendMessage 500 "Something went wrong"))
         ∨ ∃ urls,
             mapM (uploadImage sv) files = Some urls
             ∧ st' = <[i:=put_hotelId_result h body urls now]> st
             ∧ R = inr (SendHotel 201 (put_hotelId_result h body urls now))).
Proof.
  intros Hnd. unfold put_hotelId.
  unfold tryCatch at 1. unfold mbind, M_bind, bind at 1.
  destruct (tryCatch _ _ st) as [r s1] eqn:H1.
  apply put_hotelId_first_write_inv in H1
    as [[-> Hr]|(i & h & Hi & Hu & -> & ->)].
  - destruct r as [e|[hotel|]]; simpl.
    + intros [= <- <-]. by left.
    + by destruct (Hr hotel).
    + intros [= <- <-]. by left.
  - simpl. unfold bind, uploadImages.
    destruct (mapM _ files) as [urls|] eqn:Hup; simpl.
    + unfold saveImageUrls.
      destruct (negb (schemaOk sv _)); simpl.
      { intros [= <- <-]. right. exists i, h. split_and!; [done..|by left]. }
      rewrite (list_find_id_NoDup (<[i:=merge h (set_p_lastUpdated now body)]> st)
                 i (merge h (set_p_lastUpdated now body))).
      * simpl. intros [= <- <-]. right. exists i, h.
        split_and!; [done..|]. right. exists urls.
        split_and!; [done| |done]. by rewrite list_insert_insert_eq.
      * by rewrite (ids_insert st i h).
      * apply list_lookup_insert_eq. by eapply lookup_lt_Some.
    + intros [= <- <-]. right. exists i, h. split_and!; [done..|by left].
Qed.

Lemma put_hotelId_ids id u body files now st :
  _id <$> (put_hotelId sv id u body files now st).2 = _id <$> st.
Proof.
  unfold put_hotelId.
  unfold tryCatch at 1. unfold mbind, M_bind, bind at 1.
  destruct (tryCatch _ _ st) as [r s1] eqn:H1.
  assert (_id <$> s1 = _id <$> st) as Hs1.
  { apply put_hotelId_first_write_inv in H1
      as [[-> _]|(i & h & Hi & _ & -> & _)]; [done|].
    by apply (ids_insert st i h). }
  destruct r as [e|[hotel|]]; simpl; try done.
  unfold bind, uploadImages.
  destruct (mapM _ files) as [urls|]; simpl; [|done].
  rewrite <- Hs1.
  pose proof (saveImageUrls_ids
                (set_imageUrls
                   (urls ++ default [] (p_imageUrls (set_p_lastUpdated now body)))
                   hotel) s1) as Hsave.
  by destruct (saveImageUrls sv _ s1) as [[e|[]] s2].
Qed.

Lemma put_update_hotel_ids id body files now st :
  _id <$> (put_update_hotel sv id body files now st).2 = _id <$> st.
Proof.
  unfold put_update_hotel.
  unfold tryCatch at 1. unfold mbind, M_bind, bind at 1.
  rewrite update_hotel_find_spec.
  destruct (list_find _ st) as [[i e]|]; simpl; [|done].
  unfold update_hotel_persist, mbind, M_bind, bind.
  case_bool_decide.
  - unfold uploadImages. destruct (mapM _ files) as [urls|]; simpl; [|done].
    pose proof (findOneAndUpdate_ids (byField (queryField e id) id)
                  (updatedHotel e body (imageUrls e ++ urls) now) true st).
    by destruct (findOneAndUpdate sv _ _ true st) as [[?|[?|]] ?].
  - simpl.
    pose proof (findOneAndUpdate_ids (byField (queryField e id) id)
                  (updatedHotel e body (imageUrls e) now) true st).
    by destruct (findOneAndUpdate sv _ _ true st) as [[?|[?|]] ?].
Qed.

Lemma post_changePrice_ids id newPrice st :
  _id <$> (post_changePrice sv id newPrice st).2 = _id <$> st.
Proof.
  rewrite post_changePrice_store.
  destruct (list_find _ st) as [[i h]|] eqn:Hfind; [|done].
  eapply ids_insert; [by eapply list_find_lookup|done].
Qed.
End Writes.

(** ** [GET /], and what [POST /add-hotel] adds to it *)

Lemma get_my_hotels_spec sv u st :
  get_my_hotels sv u st
  = (inr (SendHotels 200 (filter (λ h, matches (ownerFilter u) h) st)), st).
Proof. reflexivity. Qed.

(** X3.  [GET /] sends exactly the records of the requester, and after a
    successful [POST /add-hotel] it sends what it sent before followed by
    the new record when the requester is its owner, and what it sent
    before otherwise. *)
Theorem X3_created_hotel_is_listed
    sv body files now freshId (st : Store) R st1 u :
  post_add_hotel sv body files now freshId st
  = (inr (SendHotel 201 R), st1) →
  ∃ hotels,
    get_my_hotels sv u st = (inr (SendHotels 200 hotels), st)
    ∧ (∀ h, h ∈ hotels ↔ h ∈ st ∧ userId h = Some u)
    ∧ get_my_hotels sv u st1
      = (inr (SendHotels 200
                (hotels ++ if decide (userId R = Some u) then [R] else [])),
         st1).
Proof.
  intros Hadd. apply post_add_hotel_inv in Hadd
    as (urls & uid & _ & _ & _ & -> & _ & _).
  exists (filter (λ h, matches (ownerFilter u) h) st).
  rewrite !get_my_hotels_spec. split; [done|]. split.
  - intros h. rewrite list_elem_of_filter, matches_ownerFilter. tauto.
  - rewrite filter_app. do 3 f_equal.
    destruct (decide (userId R = Some u)) as [Hu|Hu].
    + rewrite filter_cons_True; [done|]. by apply matches_ownerFilter.
    + rewrite filter_cons_False; [done|].
      by intros ?%matches_ownerFilter.
Qed.

Lemma X3_witness :
  ∃ hotels,
    get_my_hotels demo "u1" [cityInn; seaView]
    = (inr (SendHotels 200 hotels), [cityInn; seaView])
    ∧ (∀ h, h ∈ hotels ↔ h ∈ [cityInn; seaView] ∧ userId h = Some "u1")
    ∧ get_my_hotels demo "u1" ([cityInn; seaView] ++ [hillTop])
      = (inr (SendHotels 200
                (hotels ++ if decide (userId hillTop = Some "u1")
                           then [hillTop] else [])),
         [cityInn; seaView] ++ [hillTop]).
Proof.
  apply (X3_created_hotel_is_listed demo (listing hexKey) [png "a"] 3000
           freshKey [cityInn; seaView] hillTop).
  reflexivity.
Defined.

(** ** [PUT /:hotelId] *)

(** X4.  [PUT /:hotelId] on a collection with unique primary keys never
    modifies a record whose [userId] is not the requester, whatever the
    identifier, the body and the files. *)
Theorem X4_put_hotelId_leaves_other_owners
    sv id u body files now (st : Store) (i : nat) r :
  NoDup (_id <$> st) →
  st !! i = Some r →
  userId r ≠ Some u →
  (put_hotelId sv id u body files now st).2 !! i = Some r.
Proof.
  intros Hnd Hi Hr.
  destruct (put_hotelId sv id u body files now st) as [R st'] eqn:Hput.
  apply put_hotelId_inv in Hput; [|done].
  destruct Hput as [[-> _]|(k & h & Hk & Hu & Hst')]; [done|].
  assert (k ≠ i) by (intros ->; congruence).
  destruct Hst' as [[-> _]|(urls & _ & -> & _)]; simpl;
    by rewrite list_lookup_insert_ne.
Qed.

Lemma X4_witness :
  (put_hotelId demo "h9" "u1" renamePatch [png "a"] 2000
     [cityInn; seaView]).2 !! 0%nat = Some cityInn
  ∧ (put_hotelId demo (_id cityInn) "u1" renamePatch [png "a"] 2000
       [cityInn; seaView]).2 !! 0%nat = Some cityInn.
Proof.
  split.
  - apply (X4_put_hotelId_leaves_other_owners demo "h9" "u1" renamePatch
             [png "a"] 2000 [cityInn; seaView] 0%nat cityInn).
    + by_compute.
    + reflexivity.
    + simpl. congruence.
  - apply (X4_put_hotelId_leaves_other_owners demo (_id cityInn) "u1"
             renamePatch [png "a"] 2000 [cityInn; seaView] 0%nat cityInn).
    + by_compute.
    + reflexivity.
    + simpl. congruence.
Defined.

(** X5.  Neither update route goes on to the business key when the
    identifier casts to an ObjectId that matches nothing: [PUT /:hotelId]
    (with a body whose [_id], if any, casts) and
    [PUT /update-hotel/:hotelId] then answer 404 and write nothing,
    whatever business keys are stored. *)
Theorem X5_update_routes_do_not_fall_back
    sv id hex u body files now (st : Store) :
  castObjectId sv id = Some hex →
  (castUpdateId sv body ≠ None →
   (∀ r, r ∈ st → userId r = Some u → _id r ≠ hex) →
   put_hotelId sv id u body files now st
   = (inr (SendMessage 404 "Hotel not found"), st))
  ∧ ((∀ r, r ∈ st → _id r ≠ hex) →
     put_update_hotel sv id body files now st
     = (inr (SendMessage 404 "Hotel not found"), st)).
Proof.
  intros Hc. split.
  - intros Hbody Hnone.
    unfold put_hotelId, tryCatch, mbind, M_bind, bind, findOneAndUpdate.
    rewrite castFilter_primaryFilter, Hc; simpl.
    change (castUpdateId sv (set_p_lastUpdated now body))
      with (castUpdateId sv body).
    destruct (castUpdateId sv body) as [uid|]; [|done].
    rewrite (list_find_None_all (λ h, matches (primaryFilter hex u) h));
      [done|].
    intros r Hr [Hid Hu]%matches_primaryFilter. by apply (Hnone r).
  - intros Hnone.
    unfold put_update_hotel, tryCatch, mbind, M_bind, bind.
    rewrite update_hotel_find_spec. unfold update_hotel_filter.
    rewrite Hc.
    rewrite (list_find_None_all (λ h, matches (byField Q_id hex) h));
      [done|].
    intros r Hr Hid%matches_byField_id. by apply (Hnone r).
Qed.

Lemma X5_witness :
  put_hotelId demo hexKey "u1" renamePatch [] 2000 [older]
  = (inr (SendMessage 404 "Hotel not found"), [older])
  ∧ put_update_hotel demo hexKey renamePatch [] 2000 [older]
    = (inr (SendMessage 404 "Hotel not found"), [older])
  ∧ hotelId older = Some hexKey
  ∧ get_by_id demo hexKey "u1" [older] = (inr (SendHotel 200 older), [older]).
Proof.
  destruct (X5_update_routes_do_not_fall_back demo hexKey hexKey "u1"
              renamePatch [] 2000 [older]) as [HA HB]; [reflexivity|].
  split; [|split; [|split; reflexivity]].
  - apply HA; [discriminate|].
    intros r ->%list_elem_of_singleton _. vm_compute. discriminate.
  - apply HB. intros r ->%list_elem_of_singleton. vm_compute. discriminate.
Defined.

(** X6.  No update route adds, removes, reorders or re-keys a record: the
    sequence of primary keys of the collection is the same after
    [PUT /:hotelId], [PUT /update-hotel/:hotelId] and [POST /changePrice]
    as before, whatever the request and its outcome. *)
Theorem X6_update_routes_keep_primary_keys
    sv id u body files now newPrice (st : Store) :
  _id <$> (put_hotelId sv id u body files now st).2 = _id <$> st
  ∧ _id <$> (put_update_hotel sv id body files now st).2 = _id <$> st
  ∧ _id <$> (post_changePrice sv id newPrice st).2 = _id <$> st.
Proof.
  split_and!.
  - apply put_hotelId_ids.
  - apply put_update_hotel_ids.
  - apply post_changePrice_ids.
Qed.

(** ** [POST /add-hotel] *)

(** The collection after [POST /add-hotel]: as it was, or with one record
    more at its end, whose primary key is new. *)
Lemma post_add_hotel_store sv body files now freshId st :
  (post_add_hotel sv body files now freshId st).2 = st
  ∨ ∃ R, (post_add_hotel sv body files now freshId st).2 = st ++ [R]
         ∧ _id R ∉ (_id <$> st).
Proof.
  unfold post_add_hotel, tryCatch, mbind, M_bind, bind, uploadImages.
  destruct (mapM _ files) as [urls|]; simpl; [|by left].
  unfold saveNew.
  destruct (new_Hotel sv freshId _) as [doc|]; simpl; [|by left].
  destruct (schemaOk sv doc); simpl; [|by left].
  case_bool_decide; simpl; [by left|]. right. by exists doc.
Qed.

(** X7.  [POST /add-hotel] keeps the primary keys of the collection
    unique, leaves every stored record where and as it was, and adds at
    most one record, whatever the request and its outcome. *)
Theorem X7_create_keeps_primary_keys_unique
    sv body files now freshId (st : Store) :
  NoDup (_id <$> st) →
  NoDup (_id <$> (post_add_hotel sv body files now freshId st).2)
  ∧ st `prefix_of` (post_add_hotel sv body files now freshId st).2
  ∧ (length (post_add_hotel sv body files now freshId st).2
     ≤ S (length st))%nat.
Proof.
  intros Hnd.
  destruct (post_add_hotel_store sv body files now freshId st)
    as [->|(R & -> & Hnew)].
  - split_and!; [done|done|lia].
  - split_and!.
    + rewrite fmap_app. apply NoDup_app. split_and!; [done| |].
      * intros x Hx ->%list_elem_of_singleton. done.
      * apply NoDup_singleton.
    + by apply prefix_app_r.
    + rewrite length_app. simpl. lia.
Qed.

Lemma X7_witness :
  NoDup (_id <$> (post_add_hotel demo (listing hexKey) [png "a"] 3000
                    freshKey [cityInn; seaView]).2)
  ∧ [cityInn; seaView]
      `prefix_of` (post_add_hotel demo (listing hexKey) [png "a"] 3000
                     freshKey [cityInn; seaView]).2
  ∧ (length (post_add_hotel demo (listing hexKey) [png "a"] 3000 freshKey
               [cityInn; seaView]).2 ≤ S (length [cityInn; seaView]))%nat.
Proof.
  apply (X7_create_keeps_primary_keys_unique demo (listing hexKey) [png "a"]
           3000 freshKey [cityInn; seaView]).
  by_compute.
Defined.

(** ** [PUT /update-hotel/:hotelId] *)

(** X8.  [PUT /update-hotel/:hotelId] uploads before it writes: when one
    file of the batch fails to upload the collection is left as it was, and
    the answer is the 500 message whenever the lookup had returned a
    hotel. *)
Theorem X8_update_hotel_upload_failure_writes_nothing
    sv id body files now (st : Store) :
  Exists (λ f, uploadImage sv f = None) files →
  (put_update_hotel sv id body files now st).2 = st
  ∧ ∀ e, update_hotel_find sv id st = (inr (Some e), st) →
         put_update_hotel sv id body files now st
         = (inr (SendMessage 500 "Something went wrong"), st).
Proof.
  intros Hfail.
  assert (0 < length files)%nat as Hlen.
  { destruct files; [by apply Exists_nil in Hfail|simpl; lia]. }
  apply mapM_None_2 in Hfail.
  unfold put_update_hotel, tryCatch, mbind, M_bind, bind.
  rewrite update_hotel_find_spec.
  destruct (list_find _ st) as [[i e]|]; simpl.
  - unfold update_hotel_persist, mbind, M_bind, bind, uploadImages.
    rewrite bool_decide_eq_true_2 by done. rewrite Hfail. simpl.
    split; [done|]. by intros e' _.
  - split; [done|]. intros e' [=].
Qed.

Lemma X8_witness :
  (put_update_hotel demo "h1" renamePatch [png "a"; pdf "b"] 2000
     [seaView]).2 = [seaView]
  ∧ put_update_hotel demo "h1" renamePatch [png "a"; pdf "b"] 2000 [seaView]
    = (inr (SendMessage 500 "Something went wrong"), [seaView]).
Proof.
  destruct (X8_update_hotel_upload_failure_writes_nothing demo "h1"
              renamePatch [png "a"; pdf "b"] 2000 [seaView])
    as [Hstore Hsent].
  - apply Exists_cons_tl, Exists_cons_hd. reflexivity.
  - split; [exact Hstore|]. apply (Hsent seaView). reflexivity.
Defined.




(** ** [POST /changePrice] *)

(** X10.  [POST /changePrice] answers 400 and writes nothing when no
    record has the identifier as [userId]; and it modifies at most one
    record: of an owner with several hotels only the first is repriced. *)
Theorem X10_changePrice_not_found_and_single_write
    sv id newPrice (st : Store) :
  ((∀ r, r ∈ st → userId r ≠ Some id) →
   post_changePrice sv id newPrice st
   = (inr (SendMessage 400 "hotel not found"), st))
  ∧ (∀ i j : nat,
       i ≠ j →
       (post_changePrice sv id newPrice st).2 !! i ≠ st !! i →
       (post_changePrice sv id newPrice st).2 !! j = st !! j).
Proof.
  split.
  - intros Hnone.
    unfold post_changePrice, tryCatch, mbind, M_bind, bind, findOneAndUpdate;
      simpl.
    rewrite (list_find_None_all (λ h, matches (ownerFilter id) h)); [done|].
    intros r Hr Hu%matches_ownerFilter. by apply (Hnone r).
  - intros i j Hij. rewrite post_changePrice_store.
    destruct (list_find _ st) as [[k h]|]; [|done].
    intros Hi. destruct (decide (k = i)) as [->|Hk].
    + by rewrite list_lookup_insert_ne.
    + by rewrite list_lookup_insert_ne in Hi.
Qed.

Lemma X10_witness :
  post_changePrice demo "h1" (Some 120) [seaView; lakeHouse]
  = (inr (SendMessage 400 "hotel not found"), [seaView; lakeHouse])
  ∧ (post_changePrice demo "u1" (Some 120) [seaView; lakeHouse]).2 !! 1%nat
    = Some lakeHouse.
Proof.
  destruct (X10_changePrice_not_found_and_single_write demo "h1" (Some 120)
              [seaView; lakeHouse]) as [Hnone _].
  destruct (X10_changePrice_not_found_and_single_write demo "u1" (Some 120)
              [seaView; lakeHouse]) as [_ Hone].
  split.
  - apply Hnone. intros r [->|[->|[]%elem_of_nil]%elem_of_cons]%elem_of_cons;
      simpl; congruence.
  - apply (Hone 0%nat 1%nat); [lia|]. vm_compute. congruence.
Defined.

(** ** multer's size limit *)

Lemma length_padding n : String.length (padding n) = n.
Proof. induction n; simpl; congruence. Qed.

(** A file of exactly [limits.fileSize] bytes reaches the limit. *)
Lemma tooLarge_atLimit : tooLarge atLimit.
Proof.
  unfold tooLarge, atLimit, png.
  change (buffer {| mimetype := "image/png";
                    buffer := padding (N.to_nat fileSize) |})
    with (padding (N.to_nat fileSize)).
  rewrite length_padding, N2Nat.id. lia.
Qed.

Lemma tooLarge_oversized : tooLarge oversized.
Proof.
  unfold tooLarge, oversized, png.
  change (buffer {| mimetype := "image/png";
                    buffer := padding (N.to_nat (fileSize + 1)) |})
    with (padding (N.to_nat (fileSize + 1))).
  rewrite length_padding, N2Nat.id. unfold fileSize. lia.
Qed.

(** X11.  A request with a file that reaches 5MB is refused by multer on
    each of the three routes that take files: the handler does not run and
    the collection is left as it was, however few files there are. *)
Theorem X11_oversized_file_is_refused
    sv id u body files now freshId (st : Store) :
  Exists tooLarge files →
  (∃ e, route_post_add_hotel sv body files now freshId st = (inl e, st))
  ∧ (∃ e, route_put_hotelId sv id u body files now st = (inl e, st))
  ∧ (∃ e, route_put_update_hotel sv id body files now st = (inl e, st)).
Proof.
  intros Hbig.
  unfold route_post_add_hotel, route_put_hotelId, route_put_update_hotel,
    withFiles.
  destruct (uploadArray_too_large (Some 6%nat) files Hbig) as [e ->].
  destruct (uploadArray_too_large None files Hbig) as [e' ->].
  split_and!; by eexists.
Qed.

Lemma X11_witness :
  (∃ e, route_post_add_hotel demo (listing "h2") [oversized] 2000 freshKey
          [seaView] = (inl e, [seaView]))
  ∧ (∃ e, route_put_hotelId demo "h1" "u1" (listing "h2") [oversized] 2000
            [seaView] = (inl e, [seaView]))
  ∧ (∃ e, route_put_update_hotel demo "h1" (listing "h2") [oversized] 2000
            [seaView] = (inl e, [seaView])).
Proof.
  apply (X11_oversized_file_is_refused demo "h1" "u1" (listing "h2")
           [oversized] 2000 freshKey [seaView]).
  apply Exists_cons_hd. exact tooLarge_oversized.
Defined.

(** ** [POST /add-hotel] and a body that names its own [_id] *)

(** X12.  [POST /add-hotel] creates nothing and answers the 500 message
    when the body names an [_id] that does not cast to an ObjectId, and
    when it names one that a stored record already has. *)
Theorem X12_create_refuses_bad_or_used_id
    sv body files now freshId (st : Store) :
  (castUpdateId sv body = None →
   post_add_hotel sv body files now freshId st
   = (inr (SendMessage 500 "Something went wrong"), st))
  ∧ (∀ y, castUpdateId sv body = Some (Some y) →
          y ∈ (_id <$> st) →
          post_add_hotel sv body files now freshId st
          = (inr (SendMessage 500 "Something went wrong"), st)).
Proof.
  split.
  - intros Hcast.
    unfold post_add_hotel, tryCatch, mbind, M_bind, bind, uploadImages.
    destruct (mapM _ files) as [urls|]; simpl; [|done].
    unfold saveNew, new_Hotel. by rewrite castUpdateId_newHotel, Hcast.
  - intros y Hcast Hy.
    unfold post_add_hotel, tryCatch, mbind, M_bind, bind, uploadImages.
    destruct (mapM _ files) as [urls|]; simpl; [|done].
    unfold saveNew, new_Hotel. rewrite castUpdateId_newHotel, Hcast; simpl.
    destruct (schemaOk sv _); simpl; [|done].
    by rewrite bool_decide_eq_true_2.
Qed.

Lemma X12_witness :
  post_add_hotel demo (listingWithKey "not-an-id") [png "a"] 3000 freshKey
    [seaView]
  = (inr (SendMessage 500 "Something went wrong"), [seaView])
  ∧ post_add_hotel demo (listingWithKey seaViewKeyUpper) [png "a"] 3000
      freshKey [seaView]
    = (inr (SendMessage 500 "Something went wrong"), [seaView]).
Proof.
  destruct (X12_create_refuses_bad_or_used_id demo
              (listingWithKey "not-an-id") [png "a"] 3000 freshKey [seaView])
    as [Hbad _].
  destruct (X12_create_refuses_bad_or_used_id demo
              (listingWithKey seaViewKeyUpper) [png "a"] 3000 freshKey
              [seaView]) as [_ Hused].
  split.
  - apply Hbad. reflexivity.
  - apply (Hused (_id seaView)); [reflexivity|]. by_compute.
Defined.

(** ** What a successful write sends back *)

(** X13.  The record a successful write sends back is a record of the
    collection after the call, and its [lastUpdated] is the call time: for
    [POST /add-hotel] (status 201), for [PUT /update-hotel/:hotelId]
    (status 200), and, on a collection with unique primary keys, for
    [PUT /:hotelId] (status 201). *)
Theorem X13_sent_record_is_stored_and_stamped
    sv id u body files now freshId (st : Store) :
  (∀ status h st',
     post_add_hotel sv body files now freshId st
     = (inr (SendHotel status h), st') →
     status = 201%nat ∧ h ∈ st' ∧ lastUpdated h = Some now)
  ∧ (∀ status h st',
       put_update_hotel sv id body files now st
       = (inr (SendHotel status h), st') →
       status = 200%nat ∧ h ∈ st' ∧ lastUpdated h = Some now)
  ∧ (NoDup (_id <$> st) →
     ∀ status h st',
       put_hotelId sv id u body files now st
       = (inr (SendHotel status h), st') →
       status = 201%nat ∧ h ∈ st' ∧ lastUpdated h = Some now).
Proof.
  split_and!.
  - intros status h st' Hadd.
    assert (status = 201%nat) as ->.
    { revert Hadd.
      unfold post_add_hotel, tryCatch, mbind, M_bind, bind, mret, M_ret, ret.
      destruct (uploadImages sv files st) as [[?|?] ?]; simpl; [congruence|].
      destruct (saveNew sv _ _) as [[?|?] ?]; simpl; congruence. }
    apply post_add_hotel_inv in Hadd
      as (urls & uid & _ & _ & Hh & -> & _ & _).
    split_and!; [done| |by rewrite Hh].
    apply elem_of_app. right. by apply list_elem_of_singleton.
  - intros status h st'. rewrite put_update_hotel_sequential.
    unfold put_update_hotel_interleaved.
    destruct (update_hotel_find sv id st) as [[?|[e|]] ?]; try discriminate.
    unfold update_hotel_persist, tryCatch, mbind, M_bind, bind, mret, M_ret,
      ret.
    destruct (if bool_decide (0 < length files)%nat then _ else _)
      as [[?|urls] s0] eqn:Hurls; simpl; [discriminate|].
    assert (s0 = st) as ->.
    { revert Hurls. case_bool_decide; [|by intros [= _ <-]].
      unfold uploadImages. destruct (mapM _ files); simpl; congruence. }
    destruct (findOneAndUpdate sv _ _ true st) as [[?|[sent|]] s] eqn:Hw;
      simpl; try discriminate.
    intros [= <- <- <-].
    pose proof Hw as [_ Hstamp]%findOneAndUpdate_updatedHotel_sent.
    apply findOneAndUpdate_inv in Hw
      as [[_ Hno]|(q' & i & h0 & _ & Hfind & -> & [= ->])];
      [by destruct (Hno sent)|].
    split_and!; [done| |done].
    eapply list_elem_of_lookup_2, list_lookup_insert_eq.
    apply list_find_lookup in Hfind. by eapply lookup_lt_Some.
  - intros Hnd status h st' Hput.
    apply put_hotelId_inv in Hput; [|done].
    destruct Hput as [[_ Hno]|(i & h0 & Hi & _ & [[_ [=]]|Hok])];
      [by destruct (Hno status h)|].
    destruct Hok as (urls & _ & -> & [= -> ->]).
    split_and!; [done| |done].
    eapply list_elem_of_lookup_2, list_lookup_insert_eq.
    by eapply lookup_lt_Some.
Qed.

Lemma X13_witness :
  201%nat = 201%nat ∧ hillTop ∈ [seaView] ++ [hillTop]
  ∧ lastUpdated hillTop = Some 3000.
Proof.
  destruct (X13_sent_record_is_stored_and_stamped demo "h1" "u1"
              (listing hexKey) [png "a"] 3000 freshKey [seaView])
    as (Hcreate & _ & _).
  apply (Hcreate 201%nat hillTop ([seaView] ++ [hillTop])). reflexivity.
Defined.

(** The success path of [PUT /:hotelId]. *)
Lemma put_hotelId_succeeds sv id u body files now (st : Store) (i : nat) h
    urls :
  NoDup (_id <$> st) →
  list_find (λ r, matches (put_hotelId_filter sv id u) r) st = Some (i, h) →
  p_id body = None →
  mapM (uploadImage sv) files = Some urls →
  schemaOk sv (put_hotelId_result h body urls now) = true →
  put_hotelId sv id u body files now st
  = (inr (SendHotel 201 (put_hotelId_result h body urls now)),
     <[i:=put_hotelId_result h body urls now]> st).
Proof.
  intros Hnd Hfind Hbody Hup Hok.
  pose proof (list_find_lookup _ _ _ _ Hfind) as Hi.
  assert (tryCatch
            (findOneAndUpdate sv (primaryFilter id u)
               (set_p_lastUpdated now body) true)
            (λ _, findOneAndUpdate sv (businessFilter id u)
                    (set_p_lastUpdated now body) true) st
          = (inr (Some (merge h (set_p_lastUpdated now body))),
             <[i:=merge h (set_p_lastUpdated now body)]> st)) as Hfirst.
  { unfold tryCatch, findOneAndUpdate, put_hotelId_filter in *.
    rewrite castFilter_primaryFilter, castFilter_businessFilter.
    assert (castUpdateId sv (set_p_lastUpdated now body) = Some None) as ->.
    { unfold castUpdateId; simpl. by rewrite Hbody. }
    destruct (castObjectId sv id) as [hex|]; simpl; by rewrite Hfind. }
  unfold put_hotelId.
  unfold tryCatch at 1. unfold mbind, M_bind, bind at 1.
  rewrite Hfirst; simpl. unfold bind, uploadImages. rewrite Hup; simpl.
  unfold saveImageUrls.
  change (set_imageUrls
            (urls ++ default [] (p_imageUrls (set_p_lastUpdated now body)))
            (merge h (set_p_lastUpdated now body)))
    with (set_imageUrls (urls ++ default [] (p_imageUrls body))
            (merge h (set_p_lastUpdated now body))).
  fold (put_hotelId_result h body urls now). rewrite Hok; simpl.
  rewrite (list_find_id_NoDup
             (<[i:=merge h (set_p_lastUpdated now body)]> st) i
             (merge h (set_p_lastUpdated now body))).
  - simpl. by rewrite list_insert_insert_eq.
  - by rewrite (ids_insert st i h).
  - apply list_lookup_insert_eq. by eapply lookup_lt_Some.
Qed.

(** X14.  [PUT /:hotelId] with a body that names no [_id], on a collection
    with unique primary keys: when the identifier matches a record of the
    requester (by primary key if it casts, by business key if the cast
    throws), the uploads succeed and the final record passes validation,
    that record is replaced by the final record, which is sent with status
    201: the stored record merged with the body, stamped with the call
    time, with the uploaded URLs followed by the body's image URLs as
    [imageUrls]. *)
Theorem X14_put_hotelId_replaces_and_sends
    sv id u body files now (st : Store) (i : nat) h urls :
  NoDup (_id <$> st) →
  list_find (λ r, matches (put_hotelId_filter sv id u) r) st = Some (i, h) →
  p_id body = None →
  mapM (uploadImage sv) files = Some urls →
  schemaOk sv (put_hotelId_result h body urls now) = true →
  put_hotelId sv id u body files now st
  = (inr (SendHotel 201 (put_hotelId_result h body urls now)),
     <[i:=put_hotelId_result h body urls now]> st)
  ∧ imageUrls (put_hotelId_result h body urls now)
    = urls ++ default [] (p_imageUrls body)
  ∧ lastUpdated (put_hotelId_result h body urls now) = Some now
  ∧ _id (put_hotelId_result h body urls now) = _id h.
Proof.
  intros Hnd Hfind Hbody Hup Hok. split; [|done].
  by apply put_hotelId_succeeds.
Qed.

Lemma X14_witness :
  put_hotelId demo "h1" "u1" renameKeepPatch [png "a"] 2000
    [cityInn; seaView]
  = (inr (SendHotel 201
            (put_hotelId_result seaView renameKeepPatch
               ["https://media.example/data:image/png;base64,YQ=="] 2000)),
     <[1%nat:=put_hotelId_result seaView renameKeepPatch
                ["https://media.example/data:image/png;base64,YQ=="] 2000]>
       [cityInn; seaView]).
Proof.
  apply (X14_put_hotelId_replaces_and_sends demo "h1" "u1" renameKeepPatch
           [png "a"] 2000 [cityInn; seaView] 1%nat seaView
           ["https://media.example/data:image/png;base64,YQ=="]).
  - by_compute.
  - reflexivity.
  - reflexivity.
  - reflexivity.
  - reflexivity.
Defined.

(** * The routes of [auth.ts] *)

Section AuthProperties.
Import Auth.
Context (sv : AuthServices).



Lemma loginValidationRules_nil b :
  loginValidationRules sv b = []
  ↔ isEmail sv (body_email b) = true
    ∧ (6 ≤ String.length (body_password b))%nat.
Proof.
  unfold loginValidationRules.
  destruct (isEmail sv (body_email b));
    destruct (6 <=? String.length (body_password b))%nat eqn:Hlen; simpl.
  - apply Nat.leb_le in Hlen. by split.
  - apply Nat.leb_gt in Hlen. split; [discriminate|]. intros [_ ?]. lia.
  - split; [discriminate|]. by intros [[=] _].
  - split; [discriminate|]. by intros [[=] _].
Qed.

(** The answers of the two login routes once the body has passed the
    rules. *)
Lemma login_valid users b :
  loginValidationRules sv b = [] →
  login sv users b
  = match authenticateUser sv users (body_email b) (body_password b) false
    with
    | inr (token, uid) => handleAuthResponse sv token uid
    | inl message =>
        {| status := if bool_decide (message = "Invalid Credentials")
                     then 400 else 500;
           cookie := None; body := JsonMessage message |}
    end.
Proof. intros H. unfold login. by rewrite H. Qed.

Lemma admin_login_valid users b :
  loginValidationRules sv b = [] →
  admin_login sv users b
  = match authenticateUser sv users (body_email b) (body_password b) true
    with
    | inr (token, uid) => handleAuthResponse sv token uid
    | inl message =>
        {| status :=
             if bool_decide (message = "Access denied. Admin only.")
             then 403
             else if bool_decide (message = "Invalid Credentials")
                  then 400 else 500;
           cookie := None; body := JsonMessage message |}
    end.
Proof. intros H. unfold admin_login. by rewrite H. Qed.

Lemma login_invalid users b :
  loginValidationRules sv b ≠ [] →
  login sv users b
  = {| status := 400; cookie := None;
       body := JsonErrors (loginValidationRules sv b) |}
  ∧ admin_login sv users b
    = {| status := 400; cookie := None;
         body := JsonErrors (loginValidationRules sv b) |}.
Proof.
  intros H. unfold login, admin_login.
  by destruct (loginValidationRules sv b).
Qed.

End AuthProperties.





(** X17.  [POST /login] answers an unknown email and a wrong password
    alike: for two bodies that pass the rules, one with an email no user
    has and one with the email of a user and a password that does not
    match, the answers are the same 400 "Invalid Credentials" without
    cookie. *)
Theorem X17_login_hides_which_credential_failed
    (sv : Auth.AuthServices) (users : list Auth.User)
    (unknown wrong : Auth.LoginBody) (user : Auth.User) :
  Auth.loginValidationRules sv unknown = [] →
  Auth.loginValidationRules sv wrong = [] →
  Auth.findOneByEmail users (Auth.body_email unknown) = None →
  Auth.findOneByEmail users (Auth.body_email wrong) = Some user →
  Auth.bcryptCompare sv (Auth.body_password wrong) (Auth.password user)
  = false →
  Auth.login sv users unknown = Auth.login sv users wrong
  ∧ Auth.login sv users unknown
    = {| Auth.status := 400; Auth.cookie := None;
         Auth.body := Auth.JsonMessage "Invalid Credentials" |}.
Proof.
  intros Hr1 Hr2 Hnone Hsome Hwrong.
  rewrite !login_valid by done. unfold Auth.authenticateUser.
  by rewrite Hnone, Hsome, Hwrong.
Qed.

Lemma X17_witness :
  Auth.login Auth.toy [Auth.alice; Auth.bob]
    (Auth.credentials "carol@example.com" "whatever")
  = Auth.login Auth.toy [Auth.alice; Auth.bob]
      (Auth.credentials "bob@example.com" "not-bob-secret")
  ∧ Auth.login Auth.toy [Auth.alice; Auth.bob]
      (Auth.credentials "carol@example.com" "whatever")
    = {| Auth.status := 400; Auth.cookie := None;
         Auth.body := Auth.JsonMessage "Invalid Credentials" |}.
Proof.
  apply (X17_login_hides_which_credential_failed Auth.toy
           [Auth.alice; Auth.bob]
           (Auth.credentials "carol@example.com" "whatever")
           (Auth.credentials "bob@example.com" "not-bob-secret") Auth.bob);
    reflexivity.
Defined.

(** X18.  [POST /admin/login] checks the role before the password: for a
    body that passes the rules and names the email of a user who is not an
    admin, the answer is 403 "Access denied. Admin only." without cookie,
    whether the password matches or not, while an email no user has gets
    400 "Invalid Credentials". *)
Theorem X18_admin_login_role_before_password
    (sv : Auth.AuthServices) (users : list Auth.User) (b : Auth.LoginBody) :
  Auth.loginValidationRules sv b = [] →
  (∀ user,
     Auth.findOneByEmail users (Auth.body_email b) = Some user →
     Auth.role user = Auth.RoleUser →
     Auth.admin_login sv users b
     = {| Auth.status := 403; Auth.cookie := None;
          Auth.body := Auth.JsonMessage "Access denied. Admin only." |})
  ∧ (Auth.findOneByEmail users (Auth.body_email b) = None →
     Auth.admin_login sv users b
     = {| Auth.status := 400; Auth.cookie := None;
          Auth.body := Auth.JsonMessage "Invalid Credentials" |}).
Proof.
  intros Hrules. rewrite admin_login_valid by done.
  unfold Auth.authenticateUser. split.
  - intros user Hfind Hrole. rewrite Hfind, Hrole. reflexivity.
  - intros Hfind. rewrite Hfind. reflexivity.
Qed.

Lemma X18_witness :
  Auth.admin_login Auth.toy [Auth.alice; Auth.bob]
    (Auth.credentials "bob@example.com" "bob-secret")
  = {| Auth.status := 403; Auth.cookie := None;
       Auth.body := Auth.JsonMessage "Access denied. Admin only." |}
  ∧ Auth.admin_login Auth.toy [Auth.alice; Auth.bob]
      (Auth.credentials "bob@example.com" "not-bob-secret")
    = {| Auth.status := 403; Auth.cookie := None;
         Auth.body := Auth.JsonMessage "Access denied. Admin only." |}
  ∧ Auth.admin_login Auth.toy [Auth.alice; Auth.bob]
      (Auth.credentials "carol@example.com" "whatever")
    = {| Auth.status := 400; Auth.cookie := None;
         Auth.body := Auth.JsonMessage "Invalid Credentials" |}.
Proof.
  destruct (X18_admin_login_role_before_password Auth.toy
              [Auth.alice; Auth.bob]
              (Auth.credentials "bob@example.com" "bob-secret"))
    as [Hright _]; [reflexivity|].
  destruct (X18_admin_login_role_before_password Auth.toy
              [Auth.alice; Auth.bob]
              (Auth.credentials "bob@example.com" "not-bob-secret"))
    as [Hwrong _]; [reflexivity|].
  destruct (X18_admin_login_role_before_password Auth.toy
              [Auth.alice; Auth.bob]
              (Auth.credentials "carol@example.com" "whatever"))
    as [_ Hunknown]; [reflexivity|].
  split_and!.
  - apply (Hright Auth.bob); reflexivity.
  - apply (Hwrong Auth.bob); reflexivity.
  - apply Hunknown. reflexivity.
Defined.

(** X19.  A body whose email is not an email or whose password has fewer
    than 6 characters never reaches [authenticateUser]: both login routes
    answer 400 with the messages of the failed rules and no cookie, and the
    answer does not depend on the users. *)
Theorem X19_login_rules_gate
    (sv : Auth.AuthServices) (users users' : list Auth.User)
    (b : Auth.LoginBody) :
  Auth.isEmail sv (Auth.body_email b) = false
  ∨ (String.length (Auth.body_password b) < 6)%nat →
  Auth.loginValidationRules sv b ≠ []
  ∧ Auth.login sv users b
    = {| Auth.status := 400; Auth.cookie := None;
         Auth.body := Auth.JsonErrors (Auth.loginValidationRules sv b) |}
  ∧ Auth.admin_login sv users b = Auth.login sv users b
  ∧ Auth.login sv users' b = Auth.login sv users b.
Proof.
  intros Hbad.
  assert (Auth.loginValidationRules sv b ≠ []) as Hrules.
  { intros [Hmail Hlen]%loginValidationRules_nil.
    destruct Hbad as [Hbad|Hbad]; [congruence|lia]. }
  destruct (login_invalid sv users b Hrules) as [Hl Ha].
  destruct (login_invalid sv users' b Hrules) as [Hl' _].
  split_and!; [done|done|congruence|congruence].
Qed.

Lemma X19_witness :
  Auth.loginValidationRules Auth.toy
    (Auth.credentials "bob@example.com" "bob") ≠ []
  ∧ Auth.login Auth.toy [Auth.alice; Auth.bob]
      (Auth.credentials "bob@example.com" "bob")
    = {| Auth.status := 400; Auth.cookie := None;
         Auth.body :=
           Auth.JsonErrors
             (Auth.loginValidationRules Auth.toy
                (Auth.credentials "bob@example.com" "bob")) |}
  ∧ Auth.admin_login Auth.toy [Auth.alice; Auth.bob]
      (Auth.credentials "bob@example.com" "bob")
    = Auth.login Auth.toy [Auth.alice; Auth.bob]
        (Auth.credentials "bob@example.com" "bob")
  ∧ Auth.login Auth.toy []
      (Auth.credentials "bob@example.com" "bob")
    = Auth.login Auth.toy [Auth.alice; Auth.bob]
        (Auth.credentials "bob@example.com" "bob").
Proof.
  apply (X19_login_rules_gate Auth.toy [Auth.alice; Auth.bob] []
           (Auth.credentials "bob@example.com" "bob")).
  right. simpl. lia.
Defined.

(** X20.  A failure to sign the token is answered with the message of the
    error: when the rules pass, the password of the first user with the
    email matches and [jwt.sign] throws an error whose message is not one
    of those the routes look for, [POST /login] answers 500 with that
    message as body and sets no cookie, and so does [POST /admin/login]
    when that user is an admin. *)
Theorem X20_signing_failure_is_answered_with_its_message
    (sv : Auth.AuthServices) (users : list Auth.User) (b : Auth.LoginBody)
    (user : Auth.User) (message : string) :
  Auth.loginValidationRules sv b = [] →
  Auth.findOneByEmail users (Auth.body_email b) = Some user →
  Auth.bcryptCompare sv (Auth.body_password b) (Auth.password user) = true →
  message ≠ "Invalid Credentials" →
  message ≠ "Access denied. Admin only." →
  (Auth.jwtSign sv {| Auth.userId := Auth._id user; Auth.isAdmin := false |}
   = inl message →
   Auth.login sv users b
   = {| Auth.status := 500; Auth.cookie := None;
        Auth.body := Auth.JsonMessage message |})
  ∧ (Auth.role user = Auth.RoleAdmin →
     Auth.jwtSign sv {| Auth.userId := Auth._id user; Auth.isAdmin := true |}
     = inl message →
     Auth.admin_login sv users b
     = {| Auth.status := 500; Auth.cookie := None;
          Auth.body := Auth.JsonMessage message |}).
Proof.
  intros Hrules Huser Hmatch Hm1 Hm2. split.
  - intros Hsign. rewrite login_valid by done.
    unfold Auth.authenticateUser. rewrite Huser, Hmatch. simpl.
    rewrite Hsign. by rewrite bool_decide_eq_false_2.
  - intros Hrole Hsign. rewrite admin_login_valid by done.
    unfold Auth.authenticateUser. rewrite Huser, Hmatch.
    rewrite (bool_decide_eq_true_2 _ Hrole). simpl.
    rewrite Hsign. by rewrite !bool_decide_eq_false_2.
Qed.

Lemma X20_witness :
  Auth.login Auth.toyNoSecret [Auth.alice; Auth.bob]
    (Auth.credentials "alice@example.com" "alice-secret")
  = {| Auth.status := 500; Auth.cookie := None;
       Auth.body :=
         Auth.JsonMessage "secretOrPrivateKey must have a value" |}
  ∧ Auth.admin_login Auth.toyNoSecret [Auth.alice; Auth.bob]
      (Auth.credentials "alice@example.com" "alice-secret")
    = {| Auth.status := 500; Auth.cookie := None;
         Auth.body :=
           Auth.JsonMessage "secretOrPrivateKey must have a value" |}.
Proof.
  destruct (X20_signing_failure_is_answered_with_its_message
              Auth.toyNoSecret [Auth.alice; Auth.bob]
              (Auth.credentials "alice@example.com" "alice-secret")
              Auth.alice "secretOrPrivateKey must have a value")
    as [Hlogin Hadmin]; [reflexivity|reflexivity|reflexivity|discriminate
                        |discriminate|].
  split; [apply Hlogin|apply Hadmin]; reflexivity.
Defined.

(** * More on the hotel routes *)

(** X21.  [POST /add-hotel] and [PUT /update-hotel/:hotelId] hand the
    files of the request, unchanged and in order, to their handler exactly
    when there are at most 6 of them and each is smaller than 5MB; with
    more than 6 files, or with a file that reaches 5MB, the request is
    refused before the handler runs and the collection is left as it
    was. *)
Theorem X21_six_files_within_size_reach_the_handler
    sv id body files now freshId (st : Store) :
  ((length files ≤ 6)%nat ∧ Forall (λ f, ¬ tooLarge f) files →
   route_post_add_hotel sv body files now freshId st
   = post_add_hotel sv body files now freshId st
   ∧ route_put_update_hotel sv id body files now st
     = put_update_hotel sv id body files now st)
  ∧ ((6 < length files)%nat ∨ Exists tooLarge files →
     (∃ e, route_post_add_hotel sv body files now freshId st = (inl e, st))
     ∧ (∃ e, route_put_update_hotel sv id body files now st = (inl e, st))).
Proof.
  unfold route_post_add_hotel, route_put_update_hotel, withFiles.
  split.
  - intros [Hlen Hsmall]. by rewrite uploadArray_within.
  - intros [[e ->]%uploadArray_over_limit
           |[e ->]%(uploadArray_too_large (Some 6%nat))];
      by split; eexists.
Qed.

Lemma X21_witness :
  (route_post_add_hotel demo (listing "h2") [png "a"; png "b"] 2000 freshKey
     [seaView]
   = post_add_hotel demo (listing "h2") [png "a"; png "b"] 2000 freshKey
       [seaView]
   ∧ route_put_update_hotel demo "h1" (listing "h2") [png "a"; png "b"] 2000
       [seaView]
     = put_update_hotel demo "h1" (listing "h2") [png "a"; png "b"] 2000
         [seaView])
  ∧ (∃ e, route_post_add_hotel demo (listing "h2") (replicate 7 (png "a"))
            2000 freshKey [seaView] = (inl e, [seaView]))
  ∧ (∃ e, route_put_update_hotel demo "h1" (listing "h2")
            (replicate 7 (png "a")) 2000 [seaView] = (inl e, [seaView])).
Proof.
  destruct (X21_six_files_within_size_reach_the_handler demo "h1"
              (listing "h2") [png "a"; png "b"] 2000 freshKey [seaView])
    as [Hok _].
  destruct (X21_six_files_within_size_reach_the_handler demo "h1"
              (listing "h2") (replicate 7 (png "a")) 2000 freshKey [seaView])
    as [_ Hmany].
  split.
  - apply Hok. split; [simpl; lia|]. unfold tooLarge. by_compute.
  - apply Hmany. left. simpl. lia.
Defined.

(** The first match of a filter after the record at its place was replaced
    by one that matches too. *)
Lemma list_find_insert_same (P : Hotel → Prop) `{∀ x, Decision (P x)}
    (st : Store) i h h' :
  list_find P st = Some (i, h) → P h' →
  list_find P (<[i:=h']> st) = Some (i, h').
Proof.
  intros (Hi & _ & Hmin)%list_find_Some HP. apply list_find_Some.
  split_and!; [|done|].
  - apply list_lookup_insert_eq. by eapply lookup_lt_Some.
  - intros j y Hj Hlt. rewrite list_lookup_insert_ne in Hj by lia.
    by eapply Hmin.
Qed.

(** X22.  Update, then read: after [PUT /:hotelId] has succeeded on an
    identifier that casts to the primary key of a record of the requester,
    with a body that names neither [_id] nor [userId], [GET /:id] by the
    same requester with the same identifier sends the record that the
    update sent. *)
Theorem X22_put_hotelId_then_get_by_id
    sv id hex u body files now (st : Store) (i : nat) h urls :
  NoDup (_id <$> st) →
  castObjectId sv id = Some hex →
  list_find (λ r, matches (primaryFilter hex u) r) st = Some (i, h) →
  p_id body = None →
  p_userId body = None →
  mapM (uploadImage sv) files = Some urls →
  schemaOk sv (put_hotelId_result h body urls now) = true →
  ∃ st',
    put_hotelId sv id u body files now st
    = (inr (SendHotel 201 (put_hotelId_result h body urls now)), st')
    ∧ get_by_id sv id u st'
      = (inr (SendHotel 200 (put_hotelId_result h body urls now)), st').
Proof.
  intros Hnd Hc Hfind Hbody Howner Hup Hok.
  exists (<[i:=put_hotelId_result h body urls now]> st). split.
  - apply put_hotelId_succeeds; try done.
    unfold put_hotelId_filter. by rewrite Hc.
  - rewrite (get_by_id_wellformed sv id hex) by done.
    rewrite (list_find_insert_same _ st i h
               (put_hotelId_result h body urls now)); [done|done|].
    apply list_find_Some in Hfind
      as (_ & [Hid Hu]%matches_primaryFilter & _).
    apply matches_primaryFilter. simpl. by rewrite Howner.
Qed.

Lemma X22_witness :
  ∃ st',
    put_hotelId demo seaViewKeyUpper "u1" renameKeepPatch [png "a"] 2000
      [cityInn; seaView]
    = (inr (SendHotel 201
              (put_hotelId_result seaView renameKeepPatch
                 ["https://media.example/data:image/png;base64,YQ=="] 2000)),
       st')
    ∧ get_by_id demo seaViewKeyUpper "u1" st'
      = (inr (SendHotel 200
                (put_hotelId_result seaView renameKeepPatch
                   ["https://media.example/data:image/png;base64,YQ=="]
                   2000)), st').
Proof.
  apply (X22_put_hotelId_then_get_by_id demo seaViewKeyUpper (_id seaView)
           "u1" renameKeepPatch [png "a"] 2000 [cityInn; seaView] 1%nat
           seaView ["https://media.example/data:image/png;base64,YQ=="]).
  - by_compute.
  - reflexivity.
  - reflexivity.
  - reflexivity.
  - reflexivity.
  - reflexivity.
  - reflexivity.
Defined.
